(** * Swarm Intelligence: agents with a friend and an enemy

    A shallow embedding of [agents.py], [agent_creator.py] and
    [environment.py], and the properties of the movement primitive, of the
    four destination rules, of the two relationship assignments, of the
    two-pass simulation step and of the rendering of a frame.

    Numbers.  The program computes with numpy [float64].  A float is a
    binary64 number of [PrimFloat]: every operation below is the IEEE 754
    operation, rounded to nearest (ties to even), with its overflow to an
    infinity, its gradual underflow, its signed zeros and its NaN.  A
    division by zero is not an exception for [float64] operands: numpy
    returns an infinity or a NaN.  Statements about all floats go through
    the specification of the operations on [spec_float]; statements about
    given floats are computed.

    Objects.  The agents of an environment live in one list; an agent's
    [friend] and [enemy] references are positions in that list.  Positions
    are Python tuples, hence immutable: storing one is storing its value. *)

From Stdlib Require Import ZArith Lia List Permutation QArith Floats.
From stdpp Require Import base list strings.

(** ** Floats *)

(** [a > b] *)
Definition gtb (a b : float) : bool := (b <? a)%float.

(** Python's builtin [min(a, b)]: the second argument when it is smaller,
    otherwise the first. *)
Definition py_min (a b : float) : float := if (b <? a)%float then b else a.

(** [x ** 2] *)
Definition sq (x : float) : float := (x * x)%float.

(** ** Vectors: numpy arrays of shape (2,) *)

Definition Point : Type := float * float.

Definition vsub (a b : Point) : Point := ((a.1 - b.1)%float, (a.2 - b.2)%float).
Definition vadd (a b : Point) : Point := ((a.1 + b.1)%float, (a.2 + b.2)%float).
(** scalar * array *)
Definition vscale (k : float) (a : Point) : Point :=
  ((k * a.1)%float, (k * a.2)%float).
(** array / scalar *)
Definition vdiv (a : Point) (k : float) : Point :=
  ((a.1 / k)%float, (a.2 / k)%float).

(** [np.linalg.norm(v, 2)] of a vector: [sqrt(v.dot(v))], the product of
    each coordinate with itself, their sum and its root, each rounded. *)
Definition norm (v : Point) : float :=
  PrimFloat.sqrt (v.1 * v.1 + v.2 * v.2)%float.

(** ** agents.py *)

(** [Agent._calculate_point_on_vector], with [self.position] and
    [self.step_size] as arguments.  In the zero branch the source rebinds
    [n] to the scalar [0], which broadcasts as the zero vector. *)
Definition _calculate_point_on_vector
    (position : Point) (step_size : float) (destination : Point) : Point :=
  let v := position in
  let u := destination in
  let n := vsub v u in
  let n_magnitude := norm n in
  let n := if (n_magnitude =? 0)%float then (0%float, 0%float)
           else vdiv n n_magnitude in
  let distance := py_min n_magnitude step_size in
  vsub v (vscale distance n).

(** [ProtectiveAgent1._get_destination]: the midpoint of friend and enemy. *)
Definition ProtectiveAgent1_get_destination
    (friend_position enemy_position : Point) : Point :=
  let midpoint_x := ((friend_position.1 + enemy_position.1) / 2)%float in
  let midpoint_y := ((friend_position.2 + enemy_position.2) / 2)%float in
  (midpoint_x, midpoint_y).

(** The intersection of the line through friend and enemy with the
    perpendicular through the agent: the [else] block that
    [ProtectiveAgent2._get_destination] and [HidingAgent2._get_destination]
    both contain, line for line. *)
Definition line_intercept (position f e : Point) : Point :=
  let p := position in
  if (e.1 - f.1 =? 0)%float then
    let x := e.1 in
    let y := position.2 in
    (x, y)
  else if (e.2 - f.2 =? 0)%float then
    let x := position.2 in
    let y := e.2 in
    (x, y)
  else
    let m1 := ((e.2 - f.2) / (e.1 - f.1))%float in
    let m2 := (-1 / m1)%float in
    let b1 := (e.2 - m1 * e.1)%float in
    let b2 := (p.2 - m2 * p.1)%float in
    let x := ((b1 - b2) / (m2 - m1))%float in
    let y := (m1 * x + b1)%float in
    (x, y).

(** [ProtectiveAgent2._get_destination] *)
Definition ProtectiveAgent2_get_destination
    (position friend_position enemy_position : Point) : Point :=
  let f := friend_position in
  let e := enemy_position in
  let p := position in
  let d_fe := norm (vsub f e) in
  let d_fp := norm (vsub f p) in
  let d_ep := norm (vsub e p) in
  if gtb (sq d_ep) (sq d_fe + sq d_fp)%float then f
  else if gtb (sq d_fp) (sq d_fe + sq d_ep)%float then e
  else line_intercept position f e.

(** [HidingAgent1._get_destination] *)
Definition HidingAgent1_get_destination
    (distance : float) (friend_position enemy_position : Point) : Point :=
  let f := friend_position in
  let e := enemy_position in
  let v := vsub f e in
  let u := vdiv v (norm v) in
  let point := vadd f (vscale distance u) in
  let d_fe := norm (vsub f e) in
  let d_ep := norm (vsub e point) in
  if gtb d_fe d_ep then vsub f (vscale distance u) else point.

(** [HidingAgent2._get_destination] *)
Definition HidingAgent2_get_destination
    (position friend_position enemy_position : Point) : Point :=
  let f := friend_position in
  let e := enemy_position in
  let p := position in
  let d_fe := norm (vsub f e) in
  let d_fp := norm (vsub f p) in
  let d_ep := norm (vsub e p) in
  if gtb (sq d_ep) (sq d_fe + sq d_fp)%float then line_intercept position f e
  else if gtb (sq d_fp) (sq d_fe + sq d_ep)%float then f
  else f.

(** *** Exceptions *)

Inductive exn : Type :=
  | AttributeError
  | TypeError
  | ValueError
  | IndexError.

Inductive result (A : Type) : Type :=
  | Ok (a : A)
  | Raise (e : exn).
Arguments Ok {A} a.
Arguments Raise {A} e.

#[global] Instance result_ret : MRet result := fun A a => Ok a.
#[global] Instance result_bind : MBind result := fun A B k m =>
  match m with
  | Ok a => k a
  | Raise e => Raise e
  end.

Definition raises {A} (m : result A) : Prop := ∃ e, m = Raise e.

(** A loop [for x in xs: body(x)] over a state that the body updates. *)
Fixpoint for_each {A S : Type} (xs : list A) (body : A → S → result S) (s : S)
    : result S :=
  match xs with
  | [] => Ok s
  | x :: xs' => s' ← body x s; for_each xs' body s'
  end.

(** *** The agent objects *)

(** The concrete class of an agent; only [HidingAgent1] has a field of its
    own, [distance]. *)
Inductive AgentClass : Type :=
  | ProtectiveAgent1
  | ProtectiveAgent2
  | HidingAgent1 (distance : float)
  | HidingAgent2.

Record Agent : Type := {
  class : AgentClass;
  position : Point;
  step_size : float;
  friend : option nat;
  enemy : option nat;
  friend_position : option Point;
  enemy_position : option Point
}.

(** [Agent.__init__] and the subclass constructors that extend it. *)
Definition Agent_init (c : AgentClass) (x y step_size : float) : Agent :=
  {| class := c; position := (x, y); step_size := step_size;
     friend := None; enemy := None;
     friend_position := None; enemy_position := None |}.

(** [self._get_destination()], dispatched on the class.  Before the first
    [update_state] both snapshots are [None]: [ProtectiveAgent1] subscripts
    it (a TypeError), the other classes hand the zero-dimensional array
    [np.array(None, dtype=float)] to [np.linalg.norm(_, 2)] (a ValueError). *)
Definition _get_destination (a : Agent) : result Point :=
  match friend_position a, enemy_position a with
  | Some f, Some e =>
      Ok (match class a with
          | ProtectiveAgent1 => ProtectiveAgent1_get_destination f e
          | ProtectiveAgent2 => ProtectiveAgent2_get_destination (position a) f e
          | HidingAgent1 distance => HidingAgent1_get_destination distance f e
          | HidingAgent2 => HidingAgent2_get_destination (position a) f e
          end)
  | _, _ =>
      match class a with
      | ProtectiveAgent1 => Raise TypeError
      | _ => Raise ValueError
      end
  end.

(** [ProtectiveAgent1._get_new_position], which every class inherits. *)
Definition _get_new_position (a : Agent) : result Point :=
  destination ← _get_destination a;
  let new_position :=
    _calculate_point_on_vector (position a) (step_size a) destination in
  Ok (new_position.1, new_position.2).

Definition set_position (a : Agent) (p : Point) : Agent :=
  {| class := class a; position := p; step_size := step_size a;
     friend := friend a; enemy := enemy a;
     friend_position := friend_position a;
     enemy_position := enemy_position a |}.

Definition set_perception (a : Agent) (fp ep : Point) : Agent :=
  {| class := class a; position := position a; step_size := step_size a;
     friend := friend a; enemy := enemy a;
     friend_position := Some fp; enemy_position := Some ep |}.

Definition set_friend (a : Agent) (j : nat) : Agent :=
  {| class := class a; position := position a; step_size := step_size a;
     friend := Some j; enemy := enemy a;
     friend_position := friend_position a;
     enemy_position := enemy_position a |}.

Definition set_enemy (a : Agent) (j : nat) : Agent :=
  {| class := class a; position := position a; step_size := step_size a;
     friend := friend a; enemy := Some j;
     friend_position := friend_position a;
     enemy_position := enemy_position a |}.

(** Reading an attribute of the object a reference points to; the reference
    [None] has no attributes. *)
Definition deref (agents : list Agent) (r : option nat) : result Agent :=
  match r with
  | None => Raise AttributeError
  | Some j =>
      match agents !! j with
      | Some b => Ok b
      | None => Raise IndexError
      end
  end.

(** [Agent.update_state] of the agent in slot [i]. *)
Definition update_state (i : nat) (agents : list Agent) : result (list Agent) :=
  a ← deref agents (Some i);
  f ← deref agents (friend a);
  e ← deref agents (enemy a);
  Ok (<[i := set_perception a (position f) (position e)]> agents).

(** [Agent.move] of the agent in slot [i]. *)
Definition move (i : nat) (agents : list Agent) : result (list Agent) :=
  a ← deref agents (Some i);
  p ← _get_new_position a;
  Ok (<[i := set_position a p]> agents).

(** ** agent_creator.py *)

Inductive AgentCreator : Type :=
  | ProtectiveAgent1Creator
  | ProtectiveAgent2Creator
  | HidingAgent1Creator (distance : float)
  | HidingAgent2Creator.

(** [HidingAgent1Creator.__init__]: stores [distance]. *)
Definition HidingAgent1Creator_init (distance : float) : result AgentCreator :=
  Ok (HidingAgent1Creator distance).

(** [create_agent] of the four creators. *)
Definition create_agent (c : AgentCreator) (x y step_size : float) : Agent :=
  match c with
  | ProtectiveAgent1Creator => Agent_init ProtectiveAgent1 x y step_size
  | ProtectiveAgent2Creator => Agent_init ProtectiveAgent2 x y step_size
  | HidingAgent1Creator distance => Agent_init (HidingAgent1 distance) x y step_size
  | HidingAgent2Creator => Agent_init HidingAgent2 x y step_size
  end.

(** ** environment.py *)

(** The attribute [sctr] does not exist before [init_render] assigns it;
    it then holds a scatter plot, which is its list of offsets. *)
Record Environment : Type := {
  n_agents : Z;
  env_step_size : float;
  grid_size : float * float;
  agent_creator : AgentCreator;
  agents : list Agent;
  sctr : option (list Point)
}.

(** [Environment.__init__] *)
Definition Environment_init (n_agents : Z) (step_size : float)
    (grid_size : float * float) (agent_creator : AgentCreator)
    : result Environment :=
  Ok {| n_agents := n_agents; env_step_size := step_size;
        grid_size := grid_size; agent_creator := agent_creator;
        agents := []; sctr := None |}.

Definition set_agents (env : Environment) (l : list Agent) : Environment :=
  {| n_agents := n_agents env; env_step_size := env_step_size env;
     grid_size := grid_size env; agent_creator := agent_creator env;
     agents := l; sctr := sctr env |}.

Definition set_sctr (env : Environment) (s : list Point) : Environment :=
  {| n_agents := n_agents env; env_step_size := env_step_size env;
     grid_size := grid_size env; agent_creator := agent_creator env;
     agents := agents env; sctr := Some s |}.

(** [range(a, b)] and [range(n)] *)
Definition range2 (a b : Z) : list Z := seqZ a (b - a).
Definition range (n : Z) : list Z := range2 0 n.

(** [l[i]] for a Python index, which counts from the end when negative;
    the result is the slot that is read. *)
Definition py_slot {A} (l : list A) (i : Z) : result nat :=
  let len := Z.of_nat (length l) in
  if decide (0 ≤ i < len)%Z then Ok (Z.to_nat i)
  else if decide (- len ≤ i < 0)%Z then Ok (Z.to_nat (len + i))
  else Raise IndexError.

(** The sources of randomness of one [reset]: the two [np.random.rand()]
    draws of every agent, which are floats, and the two draws behind every
    [random.sample] call. *)
Record Rng : Type := {
  rand : nat → float * float;
  picks : nat → nat * nat
}.

(** [random.sample(population, 2)] by its contract: a ValueError when the
    population has fewer than two elements, otherwise the elements at two
    different places of it.  The first draw picks a place, the second a
    place among the others. *)
Definition random_sample2 {A} (population : list A) (pick : nat * nat)
    : result (A * A) :=
  let n := length population in
  if (n <? 2)%nat then Raise ValueError
  else
    let j := (pick.1 mod n)%nat in
    let others := take j population ++ drop (S j) population in
    let k := (pick.2 mod (n - 1))%nat in
    match population !! j, others !! k with
    | Some a, Some b => Ok (a, b)
    | _, _ => Raise ValueError
    end.

(** [self.agents[i].friend = self.agents[friend_idx]] and
    [self.agents[i].enemy = self.agents[enemy_idx]] *)
Definition assign (i friend_idx enemy_idx : Z) (agents : list Agent)
    : result (list Agent) :=
  f ← py_slot agents friend_idx;
  s ← py_slot agents i;
  a ← deref agents (Some s);
  let agents := <[s := set_friend a f]> agents in
  e ← py_slot agents enemy_idx;
  s ← py_slot agents i;
  a ← deref agents (Some s);
  Ok (<[s := set_enemy a e]> agents).

(** [Environment.__random_agent_assignment] *)
Definition __random_agent_assignment (n_agents : Z) (rng : Rng)
    (agents : list Agent) : result (list Agent) :=
  for_each (range n_agents) (fun i agents =>
    let other_agents := range2 0 i ++ range2 (i + 1) n_agents in
    '(friend_idx, enemy_idx) ← random_sample2 other_agents (picks rng (Z.to_nat i));
    assign i friend_idx enemy_idx agents) agents.

(** [Environment.__neighbours_agent_assignment] *)
Definition __neighbours_agent_assignment (n_agents : Z)
    (agents : list Agent) : result (list Agent) :=
  for_each (range n_agents) (fun i agents =>
    let '(friend_idx, enemy_idx) :=
      if decide (i = 0)%Z then (-1, i + 1)%Z
      else if decide (i = n_agents - 1)%Z then (-2, 0)%Z
      else (i - 1, i + 1)%Z in
    assign i friend_idx enemy_idx agents) agents.

(** The first loop of [reset]: one agent per index, at a random place of
    the grid. *)
Definition create_agents (env : Environment) (rng : Rng) : list Agent :=
  map (fun k =>
         let x := ((rand rng k).1 * (grid_size env).1)%float in
         let y := ((rand rng k).2 * (grid_size env).2)%float in
         create_agent (agent_creator env) x y (env_step_size env))
      (seq 0 (Z.to_nat (n_agents env))).

(** [Environment.reset] *)
Definition reset (env : Environment) (assignment_type : string) (rng : Rng)
    : result Environment :=
  let agents := create_agents env rng in
  agents ←
    (if decide (assignment_type = "random") then
       __random_agent_assignment (n_agents env) rng agents
     else if decide (assignment_type = "neighbours") then
       __neighbours_agent_assignment (n_agents env) agents
     else Ok agents);
  Ok (set_agents env agents).

(** The two passes of [Environment.step], each over the agents in a given
    order of their slots. *)
Definition step_in_order (order1 order2 : list nat) (agents : list Agent)
    : result (list Agent) :=
  agents ← for_each order1 update_state agents;
  for_each order2 move agents.

(** [Environment.step]: both loops run through [self.agents] front to back. *)
Definition step_agents (agents : list Agent) : result (list Agent) :=
  step_in_order (seq 0 (length agents)) (seq 0 (length agents)) agents.

Definition step (env : Environment) : result Environment :=
  agents ← step_agents (agents env);
  Ok (set_agents env agents).


(** ** Exact values *)

(** The value of a finite float, a dyadic rational (and zero for the
    floats that have no value). *)
Definition exact (x : float) : Q :=
  match Prim2SF x with
  | S754_finite s m e => (inject_Z (cond_Zopp s (Z.pos m)) * 2 ^ e)%Q
  | _ => 0%Q
  end.

Definition finite_point (p : Point) : bool := is_finite p.1 && is_finite p.2.

(** A finite point as a point of the rational plane. *)
Definition exact_point (p : Point) : Q * Q := (exact p.1, exact p.2).

(** The inner product and the cross product of [a - b] and [c - d], and
    the square of the Euclidean distance of [a] and [b], all exact. *)
Definition inner (a b c d : Q * Q) : Q :=
  ((a.1 - b.1) * (c.1 - d.1) + (a.2 - b.2) * (c.2 - d.2))%Q.

Definition cross (a b c d : Q * Q) : Q :=
  ((a.1 - b.1) * (c.2 - d.2) - (a.2 - b.2) * (c.1 - d.1))%Q.

Definition sqdist (a b : Q * Q) : Q := inner a b a b.

(** ** Notions of the specification *)

(** The three classes in the words of the specification, on exact
    distances. *)
Definition beyond_friend (P F E : Q * Q) : Prop :=
  (sqdist F E + sqdist F P < sqdist E P)%Q.
Definition beyond_enemy (P F E : Q * Q) : Prop :=
  (sqdist F E + sqdist E P < sqdist F P)%Q.
Definition between (P F E : Q * Q) : Prop :=
  ¬ beyond_friend P F E ∧ ¬ beyond_enemy P F E.

(** The foot of the perpendicular from [P] onto the line through [F] and
    [E]. *)
Definition foot (P F E : Q * Q) : Q * Q :=
  let t := (inner P F E F / inner E F E F)%Q in
  ((F.1 + t * (E.1 - F.1))%Q, (F.2 + t * (E.2 - F.2))%Q).

(** The same two tests as the program evaluates them: on the rounded
    distances, with rounded squares and a rounded sum. *)
Definition tests_beyond_friend (P F E : Point) : bool :=
  gtb (sq (norm (vsub E P))) (sq (norm (vsub F E)) + sq (norm (vsub F P)))%float.
Definition tests_beyond_enemy (P F E : Point) : bool :=
  gtb (sq (norm (vsub F P))) (sq (norm (vsub F E)) + sq (norm (vsub E P)))%float.

(** The candidate [f + distance*u] and the flipped point [f - distance*u] of
    [HidingAgent1._get_destination], as the program evaluates them. *)
Definition candidate (distance : float) (F E : Point) : Point :=
  vadd F (vscale distance (vdiv (vsub F E) (norm (vsub F E)))).

(** ** One tick in closed form *)

(** Every agent has a friend and an enemy, and both are agents of the
    list: the state [reset] is meant to establish before the first tick. *)
Definition assigned (agents : list Agent) : Prop :=
  ∀ i a, agents !! i = Some a →
    ∃ f e, friend a = Some f ∧ enemy a = Some e ∧
           (f < length agents)%nat ∧ (e < length agents)%nat.

(** An agent after its own [update_state], in the state [agents]. *)
Definition perceived (agents : list Agent) (a : Agent) : Agent :=
  match deref agents (friend a), deref agents (enemy a) with
  | Ok f, Ok e => set_perception a (position f) (position e)
  | _, _ => a
  end.

(** An agent after its own [move]. *)
Definition moved (a : Agent) : Agent :=
  match _get_new_position a with
  | Ok p => set_position a p
  | Raise _ => a
  end.

(** What [update_state] leaves alone: everything but the two snapshots. *)
Definition forget (a : Agent) : Agent :=
  {| class := class a; position := position a; step_size := step_size a;
     friend := friend a; enemy := enemy a;
     friend_position := None; enemy_position := None |}.

Definition has_perception (a : Agent) : Prop :=
  is_Some (friend_position a) ∧ is_Some (enemy_position a).

(** During the first pass the agents differ from those before the tick,
    [agents0], in their snapshots only. *)
Definition same_but_perception (agents0 s : list Agent) : Prop :=
  forget <$> s = forget <$> agents0.


(** ** Concrete inputs *)

(** Three midpoint-seeking agents in a ring. *)
Definition three_agents : list Agent :=
  [ {| class := ProtectiveAgent1; position := (0, 0)%float; step_size := 1;
       friend := Some 2%nat; enemy := Some 1%nat;
       friend_position := None; enemy_position := None |};
    {| class := ProtectiveAgent1; position := (4, 0)%float; step_size := 1;
       friend := Some 0%nat; enemy := Some 2%nat;
       friend_position := None; enemy_position := None |};
    {| class := ProtectiveAgent1; position := (0, 3)%float; step_size := 1;
       friend := Some 1%nat; enemy := Some 0%nat;
       friend_position := None; enemy_position := None |} ].

(** An environment with a single agent. *)
Definition single_agent_world : Environment :=
  {| n_agents := 1; env_step_size := 10; grid_size := (100, 100)%float;
     agent_creator := HidingAgent1Creator 20; agents := []; sctr := None |}.

(** An environment of five agents before its first [reset], and one fixed
    outcome of all random draws. *)
Definition five_agents_world : Environment :=
  {| n_agents := 5; env_step_size := 10; grid_size := (100, 100)%float;
     agent_creator := ProtectiveAgent2Creator; agents := []; sctr := None |}.

Definition fixed_draws : Rng :=
  {| rand := λ _, (0, 0)%float; picks := λ _, (0%nat, 0%nat) |}.

(** ** Relationships *)

(** The two assignments of one iteration of an assignment loop, as one
    update of the agent. *)
Definition befriend (f e : nat) (a : Agent) : Agent :=
  set_enemy (set_friend a f) e.

(** Agent [j] has a friend and an enemy, in slots that satisfy [Q]. *)
Definition related (Q : nat → nat → nat → Prop) (j : nat) (a : Agent) : Prop :=
  ∃ f e, friend a = Some f ∧ enemy a = Some e ∧ Q j f e.

(** Among [N] agents, friend [f] and enemy [e] of agent [j] are two other
    agents; and they are its neighbours in the ring. *)
Definition distinct_relationship (N j f e : nat) : Prop :=
  f ≠ j ∧ e ≠ j ∧ f ≠ e ∧ (f < N)%nat ∧ (e < N)%nat.

Definition ring_relationship (N j f e : nat) : Prop :=
  f = (if decide (j = 0) then N - 1 else j - 1)%nat ∧
  e = (if decide (j = N - 1) then 0 else j + 1)%nat.


(** ** Rendering *)

(** [Environment.format_agent_positions]: [np.stack] of the agents'
    positions, one row per agent in the order of the list.  [np.stack] of
    an empty list is a ValueError. *)
Definition format_agent_positions (env : Environment) : result (list Point) :=
  match agents env with
  | [] => Raise ValueError
  | _ :: _ => Ok (position <$> agents env)
  end.

(** [Environment.init_render]: the scatter plot of the positions is
    stored in [self.sctr] and returned. *)
Definition init_render (env : Environment) : result (Environment * list Point) :=
  positions ← format_agent_positions env;
  Ok (set_sctr env positions, positions).

(** [Environment.render]: one [step], then the positions become the
    offsets of [self.sctr], which is returned.  Reading [self.sctr] before
    [init_render] has assigned it is an AttributeError. *)
Definition render (env : Environment) : result (Environment * list Point) :=
  env ← step env;
  positions ← format_agent_positions env;
  match sctr env with
  | None => Raise AttributeError
  | Some _ => Ok (set_sctr env positions, positions)
  end.

(** [render] called [k] times in a row. *)
Fixpoint frames (k : nat) (env : Environment) : result Environment :=
  match k with
  | O => Ok env
  | S k' => r ← render env; frames k' r.1
  end.

(** The first [k] frames of [Environment.run]: the animation calls
    [init_render] once and then [render] for every frame. *)
Definition run (k : nat) (env : Environment) : result Environment :=
  r ← init_render env; frames k r.1.

(** An agent without its two references: what the assignment of friends
    and enemies leaves alone. *)
Definition unrelated (a : Agent) : Agent :=
  {| class := class a; position := position a; step_size := step_size a;
     friend := None; enemy := None;
     friend_position := friend_position a;
     enemy_position := enemy_position a |}.

(** The class of the agents that a creator makes. *)
Definition class_of (c : AgentCreator) : AgentClass :=
  match c with
  | ProtectiveAgent1Creator => ProtectiveAgent1
  | ProtectiveAgent2Creator => ProtectiveAgent2
  | HidingAgent1Creator distance => HidingAgent1 distance
  | HidingAgent2Creator => HidingAgent2
  end.


(** An environment of two agents that hide at a set distance. *)
Definition two_hiding_agents_world : Environment :=
  {| n_agents := 2; env_step_size := 10; grid_size := (100, 100)%float;
     agent_creator := HidingAgent1Creator 20; agents := []; sctr := None |}.

(** An environment without agents, and one that holds [three_agents] and
    their scatter plot. *)
Definition empty_world : Environment :=
  {| n_agents := 0; env_step_size := 10; grid_size := (100, 100)%float;
     agent_creator := ProtectiveAgent1Creator; agents := []; sctr := None |}.

Definition three_agents_world : Environment :=
  {| n_agents := 3; env_step_size := 1; grid_size := (100, 100)%float;
     agent_creator := ProtectiveAgent1Creator; agents := three_agents;
     sctr := Some (position <$> three_agents) |}.

(** An agent whose position is NaN, and one whose friend's is. *)
Definition lost_agent : Agent :=
  {| class := ProtectiveAgent2; position := (nan, nan); step_size := 1;
     friend := Some 1%nat; enemy := Some 2%nat;
     friend_position := Some (0, 0)%float;
     enemy_position := Some (10, 0)%float |}.

Definition follower_of_lost_agent : Agent :=
  {| class := HidingAgent2; position := (5, 5)%float; step_size := 1;
     friend := Some 0%nat; enemy := Some 2%nat;
     friend_position := Some (nan, nan);
     enemy_position := Some (10, 0)%float |}.

(** * Properties *)

(** ** Arithmetic of binary64 *)

(** Facts about all floats are proved on the specification of the
    operations, by cases on the five kinds of floats. *)
Ltac to_spec :=
  rewrite ?FloatAxioms.add_spec, ?FloatAxioms.sub_spec, ?FloatAxioms.mul_spec,
    ?FloatAxioms.div_spec, ?FloatAxioms.sqrt_spec, ?FloatAxioms.opp_spec,
    ?FloatAxioms.abs_spec.

Ltac float_cases x := destruct (Prim2SF x) as [[] | [] | | [] ? ?].

Lemma Prim2SF_nan : Prim2SF nan = S754_nan.
Proof. reflexivity. Qed.

Lemma Prim2SF_zero : Prim2SF 0 = S754_zero false.
Proof. reflexivity. Qed.

Lemma add_nan_r (x : float) : (x + nan)%float = nan.
Proof. apply Prim2SF_inj. to_spec. rewrite Prim2SF_nan. float_cases x; reflexivity. Qed.

Lemma add_nan_l (x : float) : (nan + x)%float = nan.
Proof. apply Prim2SF_inj. to_spec. rewrite Prim2SF_nan. float_cases x; reflexivity. Qed.

Lemma sub_nan_r (x : float) : (x - nan)%float = nan.
Proof. apply Prim2SF_inj. to_spec. rewrite Prim2SF_nan. float_cases x; reflexivity. Qed.

Lemma sub_nan_l (x : float) : (nan - x)%float = nan.
Proof. apply Prim2SF_inj. to_spec. rewrite Prim2SF_nan. float_cases x; reflexivity. Qed.

Lemma mul_nan_r (x : float) : (x * nan)%float = nan.
Proof. apply Prim2SF_inj. to_spec. rewrite Prim2SF_nan. float_cases x; reflexivity. Qed.

Lemma mul_nan_l (x : float) : (nan * x)%float = nan.
Proof. apply Prim2SF_inj. to_spec. rewrite Prim2SF_nan. float_cases x; reflexivity. Qed.

Lemma div_nan_r (x : float) : (x / nan)%float = nan.
Proof. apply Prim2SF_inj. to_spec. rewrite Prim2SF_nan. float_cases x; reflexivity. Qed.

Lemma div_nan_l (x : float) : (nan / x)%float = nan.
Proof. apply Prim2SF_inj. to_spec. rewrite Prim2SF_nan. float_cases x; reflexivity. Qed.

Lemma ltb_nan_r (x : float) : (x <? nan)%float = false.
Proof. rewrite FloatAxioms.ltb_spec, Prim2SF_nan. float_cases x; reflexivity. Qed.

Lemma ltb_nan_l (x : float) : (nan <? x)%float = false.
Proof. rewrite FloatAxioms.ltb_spec, Prim2SF_nan. float_cases x; reflexivity. Qed.

Lemma eqb_nan_l (x : float) : (nan =? x)%float = false.
Proof. rewrite FloatAxioms.eqb_spec, Prim2SF_nan. float_cases x; reflexivity. Qed.


(** The kinds of floats, read off the specification. *)
Lemma is_finite_spec (x : float) :
  is_finite x = match Prim2SF x with
                | S754_zero _ | S754_finite _ _ _ => true
                | _ => false
                end.
Proof.
  unfold is_finite, is_nan, is_infinity.
  rewrite !FloatAxioms.eqb_spec, FloatAxioms.abs_spec.
  change (Prim2SF infinity) with (S754_infinity false).
  destruct (Prim2SF x) as [[] | [] | | s m e]; try reflexivity.
  unfold SFeqb, SFcompare. cbn [SFabs].
  rewrite Z.compare_refl, Pos.compare_cont_refl. now destruct s.
Qed.

(** [x - x] is [+0.0] for a finite float and NaN for the others. *)
Lemma sub_diag (x : float) : is_finite x = true → (x - x)%float = 0%float.
Proof.
  rewrite is_finite_spec. intros H. apply Prim2SF_inj. to_spec.
  destruct (Prim2SF x) as [[] | [] | | s m e]; try discriminate H; try reflexivity.
  unfold SF64sub, SFsub. rewrite Z.sub_diag. reflexivity.
Qed.

Lemma sub_diag_nan (x : float) : is_finite x = false → (x - x)%float = nan.
Proof.
  rewrite is_finite_spec. intros H. apply Prim2SF_inj. to_spec.
  destruct (Prim2SF x) as [[] | [] | | s m e]; try discriminate H; reflexivity.
Qed.

(** ** The step-limited travel primitive *)



Lemma vsub_diag (p : Point) : finite_point p = true → vsub p p = (0, 0)%float.
Proof.
  unfold finite_point. intros [H1 H2]%andb_prop. unfold vsub.
  now rewrite !sub_diag.
Qed.







(** ** Shortest path to the line between friend and enemy *)

(** Statements about given rationals are decided by computation. *)
Ltac by_computation :=
  vm_compute;
  first [ reflexivity
        | discriminate
        | let H := fresh in intros H; discriminate H ].

(** Two given floats, or points, are told apart by computation. *)
Ltac floats_differ :=
  let H := fresh in
  intros H;
  first [ apply (f_equal Prim2SF) in H
        | apply (f_equal (λ p : Point, (Prim2SF p.1, Prim2SF p.2))) in H ];
  vm_compute in H; discriminate H.

Section Classification.

Variables P F E : Point.

Lemma ProtectiveAgent2_beyond_friend :
  tests_beyond_friend P F E = true →
  ProtectiveAgent2_get_destination P F E = F.
Proof.
  unfold tests_beyond_friend, ProtectiveAgent2_get_destination. cbv zeta.
  now intros ->.
Qed.

Lemma ProtectiveAgent2_beyond_enemy :
  tests_beyond_friend P F E = false → tests_beyond_enemy P F E = true →
  ProtectiveAgent2_get_destination P F E = E.
Proof.
  unfold tests_beyond_friend, tests_beyond_enemy,
    ProtectiveAgent2_get_destination. cbv zeta.
  now intros -> ->.
Qed.

Lemma ProtectiveAgent2_between :
  tests_beyond_friend P F E = false → tests_beyond_enemy P F E = false →
  ProtectiveAgent2_get_destination P F E = line_intercept P F E.
Proof.
  unfold tests_beyond_friend, tests_beyond_enemy,
    ProtectiveAgent2_get_destination. cbv zeta.
  now intros -> ->.
Qed.

Lemma HidingAgent2_beyond_friend :
  tests_beyond_friend P F E = true →
  HidingAgent2_get_destination P F E = line_intercept P F E.
Proof.
  unfold tests_beyond_friend, HidingAgent2_get_destination. cbv zeta.
  now intros ->.
Qed.

Lemma HidingAgent2_not_beyond_friend :
  tests_beyond_friend P F E = false →
  HidingAgent2_get_destination P F E = F.
Proof.
  unfold tests_beyond_friend, HidingAgent2_get_destination. cbv zeta.
  intros ->. now destruct (gtb _ _).
Qed.

Lemma line_intercept_vertical :
  (E.1 - F.1 =? 0)%float = true → line_intercept P F E = (E.1, P.2).
Proof. unfold line_intercept. now intros ->. Qed.

Lemma line_intercept_horizontal :
  (E.1 - F.1 =? 0)%float = false → (E.2 - F.2 =? 0)%float = true →
  line_intercept P F E = (P.2, E.2).
Proof. unfold line_intercept. now intros -> ->. Qed.

End Classification.

(** C3 as stated does not hold in binary64.  With the friend at (0,0) and
    the enemy at (10,0), the agent at (-2^-60, 1) is beyond its friend:
    the squares of the exact distances are 101 + 20*2^-60 + 2^-120 on one
    side and 101 + 2^-120 on the other.  The distances the program
    compares are rounded, its test fails, and the destination is (1,0),
    not the friend's position. *)
Lemma obtuse_test_is_rounded :
  beyond_friend (exact_point (-0x1p-60, 1)%float) (exact_point (0, 0)%float)
                (exact_point (10, 0)%float) ∧
  tests_beyond_friend (-0x1p-60, 1)%float (0, 0)%float (10, 0)%float = false ∧
  ProtectiveAgent2_get_destination (-0x1p-60, 1)%float (0, 0)%float (10, 0)%float
  = (1, 0)%float ∧
  ProtectiveAgent2_get_destination (-0x1p-60, 1)%float (0, 0)%float (10, 0)%float
  ≠ (0, 0)%float.
Proof.
  split; [by_computation |]. split; [by_computation |].
  split; [by_computation |]. floats_differ.
Qed.

(** C3, amended.  [ProtectiveAgent2] classifies with the distances as it
    evaluates them, every norm, square and sum rounded: where its first
    test holds the destination is the friend's position, where the first
    fails and the second holds it is the enemy's, and where both fail it
    is the intercept.  With the friend at (0,0) and the enemy at (10,0),
    an agent at (-5,0) is beyond its friend and is sent to (0,0), and one
    at (15,0) is beyond its enemy and is sent to (10,0). *)
Theorem shortest_path_obtuse_destinations (P F E : Point) :
  (tests_beyond_friend P F E = true →
   ProtectiveAgent2_get_destination P F E = F) ∧
  (tests_beyond_friend P F E = false → tests_beyond_enemy P F E = true →
   ProtectiveAgent2_get_destination P F E = E) ∧
  (tests_beyond_friend P F E = false → tests_beyond_enemy P F E = false →
   ProtectiveAgent2_get_destination P F E = line_intercept P F E) ∧
  beyond_friend (exact_point (-5, 0)%float) (exact_point (0, 0)%float)
                (exact_point (10, 0)%float) ∧
  ProtectiveAgent2_get_destination (-5, 0)%float (0, 0)%float (10, 0)%float
  = (0, 0)%float ∧
  beyond_enemy (exact_point (15, 0)%float) (exact_point (0, 0)%float)
               (exact_point (10, 0)%float) ∧
  ProtectiveAgent2_get_destination (15, 0)%float (0, 0)%float (10, 0)%float
  = (10, 0)%float.
Proof.
  split; [apply ProtectiveAgent2_beyond_friend |].
  split; [apply ProtectiveAgent2_beyond_enemy |].
  split; [apply ProtectiveAgent2_between |].
  repeat split; by_computation.
Qed.

(** C3, amended, for an agent at (-7,1), beyond its friend at (0,0). *)
Lemma shortest_path_obtuse_destinations_witness :
  tests_beyond_friend (-7, 1)%float (0, 0)%float (10, 0)%float = true ∧
  ProtectiveAgent2_get_destination (-7, 1)%float (0, 0)%float (10, 0)%float
  = (0, 0)%float.
Proof.
  split; [reflexivity |].
  exact (proj1 (shortest_path_obtuse_destinations
                  (-7, 1)%float (0, 0)%float (10, 0)%float) eq_refl).
Defined.

(** C4, on the code.  The general branch solves for the intercept with
    the slopes and the intercepts of the two lines, every step rounded.
    With the friend at (50,0), the enemy at (50 + 2^-45, 100) and the agent
    at (60, 50.25), which is between them, the slope is 100 * 2^45 and the
    rounding errors of the intercepts are of the size of the result: the
    destination is (50 + 3 * 2^-47, 64), which is not on the line through
    friend and enemy, and more than 13 away from the foot of the
    perpendicular.  On a line of moderate slope the destination misses the
    foot by a rounding error: with the friend at (0,0), the enemy at (3,1)
    and the agent at (1,1) it is (1.2, 0.4) as rounded down, neither on the
    line nor on the perpendicular. *)
Theorem general_branch_misses_foot :
  let F := (50, 0)%float in
  let E := (0x1.9000000000004p+5, 100)%float in
  let P := (60, 50.25)%float in
  let D := ProtectiveAgent2_get_destination P F E in
  let F' := (0, 0)%float in
  let E' := (3, 1)%float in
  let P' := (1, 1)%float in
  let D' := ProtectiveAgent2_get_destination P' F' E' in
  (¬ (exact E.1 == exact F.1)%Q ∧ ¬ (exact E.2 == exact F.2)%Q ∧
   between (exact_point P) (exact_point F) (exact_point E) ∧
   tests_beyond_friend P F E = false ∧ tests_beyond_enemy P F E = false ∧
   D = (0x1.9000000000003p+5, 64)%float ∧
   ¬ (cross (exact_point D) (exact_point F) (exact_point E) (exact_point F)
      == 0)%Q ∧
   ¬ (inner (exact_point D) (exact_point P) (exact_point E) (exact_point F)
      == 0)%Q ∧
   (13 * 13
    < sqdist (exact_point D) (foot (exact_point P) (exact_point F) (exact_point E)))%Q) ∧
  (¬ (exact E'.1 == exact F'.1)%Q ∧ ¬ (exact E'.2 == exact F'.2)%Q ∧
   between (exact_point P') (exact_point F') (exact_point E') ∧
   D' = (0x1.3333333333333p+0, 0x1.9999999999999p-2)%float ∧
   ¬ (cross (exact_point D') (exact_point F') (exact_point E') (exact_point F')
      == 0)%Q ∧
   ¬ (inner (exact_point D') (exact_point P') (exact_point E') (exact_point F')
      == 0)%Q).
Proof.
  cbv zeta. repeat split; by_computation.
Qed.

(** C5 as stated does not hold: with the friend at (0,0), the enemy at
    (10,0) and the agent at (5,3), which lies between them, the destination
    is (3,0); its second coordinate is the enemy's, 0, and not the agent's
    first coordinate, 5. *)
Lemma horizontal_branch_y_is_not_own_x :
  (0 - 0 =? 0)%float = true ∧ (10 - 0 =? 0)%float = false ∧
  between (exact_point (5, 3)%float) (exact_point (0, 0)%float)
          (exact_point (10, 0)%float) ∧
  tests_beyond_friend (5, 3)%float (0, 0)%float (10, 0)%float = false ∧
  tests_beyond_enemy (5, 3)%float (0, 0)%float (10, 0)%float = false ∧
  ProtectiveAgent2_get_destination (5, 3)%float (0, 0)%float (10, 0)%float
  = (3, 0)%float ∧
  (ProtectiveAgent2_get_destination (5, 3)%float (0, 0)%float (10, 0)%float).2
  ≠ 5%float.
Proof.
  split; [reflexivity |]. split; [reflexivity |].
  split; [split; by_computation |].
  split; [reflexivity |]. split; [reflexivity |]. split; [reflexivity |].
  floats_differ.
Qed.

(** Friend and enemy with one finite ordinate are on a horizontal line
    for the program. *)
Lemma same_ordinate (y : float) : is_finite y = true → (y - y =? 0)%float = true.
Proof. intros H. now rewrite sub_diag. Qed.

(** C5, amended.  Friend and enemy on one horizontal line and not at the
    same abscissa, as the program tests it: the horizontal branch returns
    the point whose first coordinate is the agent's second coordinate and
    whose second coordinate is the enemy's, which is the friend's when
    both are finite.  [ProtectiveAgent2] takes the branch for an agent it
    classifies as between friend and enemy, [HidingAgent2] for an agent it
    classifies as beyond its friend. *)
Theorem horizontal_branch_x_is_own_y (P F E : Point) :
  (E.2 - F.2 =? 0)%float = true → (E.1 - F.1 =? 0)%float = false →
  (tests_beyond_friend P F E = false → tests_beyond_enemy P F E = false →
   ProtectiveAgent2_get_destination P F E = (P.2, E.2)) ∧
  (tests_beyond_friend P F E = true →
   HidingAgent2_get_destination P F E = (P.2, E.2)) ∧
  (is_finite F.2 = true → E.2 = F.2 → (E.2 - F.2 =? 0)%float = true).
Proof.
  intros Hy Hx. split; [| split].
  - intros H1 H2. rewrite (ProtectiveAgent2_between _ _ _ H1 H2).
    now apply line_intercept_horizontal.
  - intros H. rewrite (HidingAgent2_beyond_friend _ _ _ H).
    now apply line_intercept_horizontal.
  - intros Hfin ->. now apply same_ordinate.
Qed.

(** C5, amended, for the friend at (0,0), the enemy at (10,0) and the agent
    at (5,3). *)
Lemma horizontal_branch_x_is_own_y_witness :
  ((0 - 0 =? 0)%float = true ∧ (10 - 0 =? 0)%float = false) ∧
  ProtectiveAgent2_get_destination (5, 3)%float (0, 0)%float (10, 0)%float
  = (3, 0)%float.
Proof.
  split; [split; reflexivity |].
  exact (proj1 (horizontal_branch_x_is_own_y
                  (5, 3)%float (0, 0)%float (10, 0)%float eq_refl eq_refl)
           eq_refl eq_refl).
Defined.

(** ** A set distance behind the friend *)

Lemma vscale_nan (k : float) : vscale k (nan, nan) = (nan, nan).
Proof. unfold vscale. cbn [fst snd]. now rewrite mul_nan_r. Qed.

Lemma vadd_nan (p : Point) : vadd p (nan, nan) = (nan, nan).
Proof. unfold vadd. cbn [fst snd]. now rewrite !add_nan_r. Qed.

Lemma vsub_nan (p : Point) : vsub p (nan, nan) = (nan, nan).
Proof. unfold vsub. cbn [fst snd]. now rewrite !sub_nan_r. Qed.

Lemma vsub_from_nan (p : Point) : vsub (nan, nan) p = (nan, nan).
Proof. unfold vsub. cbn [fst snd]. now rewrite !sub_nan_l. Qed.

Lemma vdiv_nan (p : Point) : vdiv p nan = (nan, nan).
Proof. unfold vdiv. now rewrite !div_nan_r. Qed.

Lemma norm_nan : norm (nan, nan) = nan.
Proof. reflexivity. Qed.

Lemma gtb_nan_r (x : float) : gtb x nan = false.
Proof. apply ltb_nan_l. Qed.

Lemma gtb_nan_l (x : float) : gtb nan x = false.
Proof. apply ltb_nan_r. Qed.

(** Normalising the difference of a point and itself divides zero by
    zero, or starts from a NaN. *)
Lemma normalize_diag (F : Point) :
  vdiv (vsub F F) (norm (vsub F F)) = (nan, nan).
Proof.
  unfold vsub.
  destruct (is_finite F.1) eqn:H1, (is_finite F.2) eqn:H2;
    rewrite ?(sub_diag _ H1), ?(sub_diag _ H2),
            ?(sub_diag_nan _ H1), ?(sub_diag_nan _ H2);
    reflexivity.
Qed.

Lemma HidingAgent1_coincident (distance : float) (F : Point) :
  HidingAgent1_get_destination distance F F = (nan, nan).
Proof.
  unfold HidingAgent1_get_destination; cbv zeta.
  rewrite normalize_diag, vscale_nan, vadd_nan, vsub_nan, norm_nan.
  now rewrite gtb_nan_r.
Qed.

Lemma nan_is_not_finite (p : Point) : finite_point p = true → p ≠ (nan, nan).
Proof. intros H ->. discriminate H. Qed.

(** C6, on the code.  With the friend's and the enemy's snapshot at one
    finite point, [HidingAgent1._get_destination] raises nothing, but its
    destination is not the friend's position: the unguarded [v / norm(v)]
    is 0/0, and both coordinates of the destination are NaN, whatever the
    configured distance. *)
Theorem coincident_snapshots_give_nan (F : Point) (distance : float) :
  finite_point F = true →
  HidingAgent1_get_destination distance F F = (nan, nan) ∧
  HidingAgent1_get_destination distance F F ≠ F.
Proof.
  intros Hfin. rewrite HidingAgent1_coincident.
  split; [reflexivity |]. intros Heq. now apply (nan_is_not_finite F).
Qed.

(** C6 for friend and enemy at (1,2) and the distance 3. *)
Lemma coincident_snapshots_give_nan_witness :
  finite_point (1, 2)%float = true ∧
  HidingAgent1_get_destination 3 (1, 2)%float (1, 2)%float = (nan, nan).
Proof.
  split; [reflexivity |].
  exact (proj1 (coincident_snapshots_give_nan (1, 2)%float 3 eq_refl)).
Defined.

(** C7 as stated does not hold: with the friend at (0,0), the enemy at
    (10,0) and distance 3 the destination is (-3,0), not (3,0). *)
Lemma fixed_offset_example_is_not_flipped :
  HidingAgent1_get_destination 3 (0, 0)%float (10, 0)%float ≠ (3, 0)%float.
Proof. floats_differ. Qed.

(** C7, amended.  With the friend at (0,0), the enemy at (10,0) and
    distance 3, the candidate is (-3,0); it is 13 from the enemy, further
    than the friend's 10, so it is kept: the destination is (-3,0).  No
    operation rounds here: the program's values are the exact ones. *)
Theorem fixed_offset_example_keeps_candidate :
  candidate 3 (0, 0)%float (10, 0)%float = (-3, 0)%float ∧
  norm (vsub (10, 0)%float (-3, 0)%float) = 13%float ∧
  norm (vsub (0, 0)%float (10, 0)%float) = 10%float ∧
  (sqdist (exact_point (10, 0)%float) (exact_point (-3, 0)%float) == 13 * 13)%Q ∧
  (sqdist (exact_point (0, 0)%float) (exact_point (10, 0)%float) == 10 * 10)%Q ∧
  gtb 10 13 = false ∧
  HidingAgent1_get_destination 3 (0, 0)%float (10, 0)%float = (-3, 0)%float.
Proof.
  repeat split; by_computation.
Qed.

(** *** Degenerate directions *)

(** The sign of a rounded number is the sign that was asked for. *)
Lemma binary_round_aux_sign (s : bool) (m e : Z) (l : location) :
  match binary_round_aux prec emax s m e l with
  | S754_zero s' | S754_infinity s' | S754_finite s' _ _ => s' = s
  | S754_nan => True
  end.
Proof.
  unfold binary_round_aux.
  destruct (shr_fexp prec emax m e l) as [mrs' e'].
  destruct (shr_fexp prec emax _ e' loc_Exact) as [mrs'' e''].
  destruct (shr_m mrs''); [reflexivity | | exact I].
  now destruct (Z.leb e'' (emax - prec)).
Qed.

(** A product of a float with itself is a NaN or has the sign [+]. *)
Lemma mul_self_sign (x : float) :
  match Prim2SF (x * x) with
  | S754_zero s | S754_infinity s | S754_finite s _ _ => s = false
  | S754_nan => True
  end.
Proof.
  to_spec. destruct (Prim2SF x) as [[] | [] | | s m e]; try reflexivity.
  unfold SF64mul, SFmul.
  pose proof (binary_round_aux_sign (xorb s s) (Z.pos (m * m)) (e + e) loc_Exact) as H.
  destruct (binary_round_aux _ _ _ _ _ _); try exact I; rewrite H; now destruct s.
Qed.







(** Where the norm of [F - E] evaluates to NaN, so does the candidate,
    which is not flipped. *)
Lemma HidingAgent1_nan_norm (distance : float) (F E : Point) :
  norm (vsub F E) = nan →
  HidingAgent1_get_destination distance F E = (nan, nan).
Proof.
  intros Hd. unfold HidingAgent1_get_destination; cbv zeta.
  rewrite Hd, vdiv_nan, vscale_nan, vadd_nan, vsub_nan, norm_nan.
  reflexivity.
Qed.


(** ** The two passes of a tick *)

Section Passes.

Context {A : Type}.
Variable body : nat → list A → result (list A).
Variable h : A → A.
Variable Inv : list A → Prop.

(** The body of the loop rewrites one slot with [h] and keeps [Inv]. *)
Hypothesis body_alter :
  ∀ s i a, Inv s → s !! i = Some a →
    body i s = Ok (alter h i s) ∧ Inv (alter h i s).

Lemma for_each_alter (order : list nat) :
  ∀ s, Inv s → Forall (λ i, (i < length s)%nat) order →
    for_each order body s = Ok (foldl (λ s i, alter h i s) s order)
    ∧ Inv (foldl (λ s i, alter h i s) s order).
Proof.
  induction order as [| i order IH]; intros s Hinv Hall.
  - split; [reflexivity | exact Hinv].
  - apply Forall_cons in Hall as [Hi Hall].
    destruct (lookup_lt_is_Some_2 s i Hi) as [a Ha].
    destruct (body_alter s i a Hinv Ha) as [Hbody Hinv'].
    cbn [for_each foldl]. rewrite Hbody. cbn [mbind result_bind].
    apply IH; [exact Hinv' |].
    eapply Forall_impl; [exact Hall |].
    intros j Hj. cbn beta. now rewrite length_alter.
Qed.

Lemma lookup_foldl_alter (order : list nat) :
  NoDup order →
  ∀ (s : list A) (i : nat),
    foldl (λ s i, alter h i s) s order !! i
    = if decide (i ∈ order) then h <$> s !! i else s !! i.
Proof.
  induction 1 as [| j order Hj Hnd IH]; intros s i.
  - cbn [foldl]. rewrite decide_False by apply not_elem_of_nil. reflexivity.
  - cbn [foldl]. rewrite IH. destruct (decide (i = j)) as [-> | Hne].
    + rewrite (decide_False _ _ Hj), decide_True by apply list_elem_of_here.
      apply list_lookup_alter_eq.
    + rewrite list_lookup_alter_ne by congruence.
      destruct (decide (i ∈ order)) as [Hin | Hnin].
      * now rewrite decide_True by (now apply list_elem_of_further).
      * rewrite decide_False; [reflexivity |].
        intros Hin. apply elem_of_cons in Hin as [? | ?]; contradiction.
Qed.

(** Visiting every slot once, in whatever order, maps [h] over the list. *)
Lemma foldl_alter_all (order : list nat) (s : list A) :
  order ≡ₚ seq 0 (length s) →
  foldl (λ s i, alter h i s) s order = h <$> s.
Proof.
  intros Hperm. apply list_eq. intros i.
  rewrite lookup_foldl_alter, list_lookup_fmap.
  - destruct (decide (i ∈ order)) as [Hin | Hnin]; [reflexivity |].
    rewrite Hperm, elem_of_seq in Hnin.
    rewrite (lookup_ge_None_2 s i) by lia. reflexivity.
  - rewrite Hperm. apply NoDup_seq.
Qed.

Lemma for_each_all (order : list nat) (s : list A) :
  Inv s → order ≡ₚ seq 0 (length s) →
  for_each order body s = Ok (h <$> s) ∧ Inv (h <$> s).
Proof.
  intros Hinv Hperm. rewrite <- (foldl_alter_all order s Hperm).
  apply for_each_alter; [exact Hinv |].
  apply Forall_forall. intros i Hi. rewrite Hperm, elem_of_seq in Hi. lia.
Qed.

End Passes.

Lemma alter_as_insert {A} (h : A → A) (s : list A) (i : nat) (a : A) :
  s !! i = Some a → alter h i s = <[i := h a]> s.
Proof.
  intros Ha. apply list_eq. intros j. destruct (decide (i = j)) as [<- | Hne].
  - rewrite list_lookup_alter_eq, Ha, list_lookup_insert_eq; [reflexivity |].
    now apply lookup_lt_is_Some_1; exists a.
  - now rewrite list_lookup_alter_ne, list_lookup_insert_ne.
Qed.

Lemma fmap_alter_invisible {A B} (g : A → B) (h : A → A) (s : list A) (i : nat) :
  (∀ a, g (h a) = g a) → g <$> alter h i s = g <$> s.
Proof.
  intros Hgh. apply list_eq. intros j. rewrite !list_lookup_fmap.
  destruct (decide (i = j)) as [<- | Hne].
  - rewrite list_lookup_alter_eq. destruct (s !! i); cbn; [now rewrite Hgh | reflexivity].
  - now rewrite list_lookup_alter_ne.
Qed.

Section Tick.

Variable agents0 : list Agent.
Hypothesis relationships : assigned agents0.

#[local] Abbreviation same_but_perception := (same_but_perception agents0).

Lemma forget_perceived (a : Agent) : forget (perceived agents0 a) = forget a.
Proof.
  unfold perceived. destruct (deref agents0 (friend a)), (deref agents0 (enemy a));
    reflexivity.
Qed.

Lemma same_lookup (s : list Agent) (j : nat) (b : Agent) :
  same_but_perception s → s !! j = Some b →
  ∃ b0, agents0 !! j = Some b0 ∧ forget b = forget b0.
Proof.
  intros Hsame Hb.
  assert (H : (forget <$> s) !! j = Some (forget b))
    by (now rewrite list_lookup_fmap, Hb).
  rewrite Hsame, list_lookup_fmap in H.
  destruct (agents0 !! j) as [b0 |]; [| discriminate].
  exists b0. split; [reflexivity |]. cbn in H. congruence.
Qed.

Lemma same_lookup_inv (s : list Agent) (j : nat) (b0 : Agent) :
  same_but_perception s → agents0 !! j = Some b0 →
  ∃ b, s !! j = Some b ∧ forget b = forget b0.
Proof.
  intros Hsame Hb.
  assert (H : (forget <$> agents0) !! j = Some (forget b0))
    by (now rewrite list_lookup_fmap, Hb).
  rewrite <- Hsame, list_lookup_fmap in H.
  destruct (s !! j) as [b |]; [| discriminate].
  exists b. split; [reflexivity |]. cbn in H. congruence.
Qed.

Lemma forget_fields (a b : Agent) :
  forget a = forget b →
  position a = position b ∧ friend a = friend b ∧ enemy a = enemy b.
Proof.
  intros H. unfold forget in H. injection H as _ Hp _ Hf He. auto.
Qed.

(** Reading through a reference sees the position from before the tick. *)
Lemma deref_same (s : list Agent) (r : nat) :
  same_but_perception s → (r < length agents0)%nat →
  ∃ b b0, deref s (Some r) = Ok b ∧ deref agents0 (Some r) = Ok b0 ∧
          position b = position b0.
Proof.
  intros Hsame Hr.
  destruct (lookup_lt_is_Some_2 agents0 r Hr) as [b0 Hb0].
  destruct (same_lookup_inv s r b0 Hsame Hb0) as (b & Hb & Hforget).
  exists b, b0. unfold deref. rewrite Hb, Hb0.
  split; [reflexivity | split; [reflexivity |]].
  now apply forget_fields in Hforget as (? & _).
Qed.

Lemma update_state_alter (s : list Agent) (i : nat) (a : Agent) :
  same_but_perception s → s !! i = Some a →
  update_state i s = Ok (alter (perceived agents0) i s) ∧
  same_but_perception (alter (perceived agents0) i s).
Proof.
  intros Hsame Ha. split.
  - destruct (same_lookup s i a Hsame Ha) as (a0 & Ha0 & Hforget).
    destruct (relationships i a0 Ha0) as (f & e & Hf & He & Hflt & Helt).
    apply forget_fields in Hforget as (_ & Hfa & Hea).
    rewrite <- Hfa in Hf. rewrite <- Hea in He.
    destruct (deref_same s f Hsame Hflt) as (fb & fb0 & Hfb & Hfb0 & Hfp).
    destruct (deref_same s e Hsame Helt) as (eb & eb0 & Heb & Heb0 & Hep).
    rewrite (alter_as_insert _ s i a Ha).
    unfold update_state, perceived. cbn [deref]. rewrite Ha.
    cbn [mbind result_bind]. rewrite Hf, He, Hfb, Heb, Hfb0, Heb0.
    cbn [mbind result_bind]. now rewrite Hfp, Hep.
  - unfold same_but_perception.
    rewrite fmap_alter_invisible by apply forget_perceived. exact Hsame.
Qed.

(** The first pass, in any order. *)
Lemma first_pass (order : list nat) :
  order ≡ₚ seq 0 (length agents0) →
  for_each order update_state agents0 = Ok (perceived agents0 <$> agents0).
Proof.
  intros Hperm.
  apply (for_each_all update_state (perceived agents0) same_but_perception);
    [apply update_state_alter | reflexivity | exact Hperm].
Qed.

Lemma perceived_assigned (i : nat) (a : Agent) :
  agents0 !! i = Some a →
  ∃ fa ea, deref agents0 (friend a) = Ok fa ∧ deref agents0 (enemy a) = Ok ea ∧
           perceived agents0 a = set_perception a (position fa) (position ea).
Proof.
  intros Ha.
  destruct (relationships i a Ha) as (f & e & Hf & He & Hflt & Helt).
  destruct (lookup_lt_is_Some_2 agents0 f Hflt) as [fa Hfa].
  destruct (lookup_lt_is_Some_2 agents0 e Helt) as [ea Hea].
  exists fa, ea. unfold perceived. rewrite Hf, He. cbn [deref].
  rewrite Hfa, Hea. auto.
Qed.

Lemma perceived_has_perception :
  Forall has_perception (perceived agents0 <$> agents0).
Proof.
  apply Forall_fmap, Forall_lookup. intros i a Ha. cbn.
  destruct (perceived_assigned i a Ha) as (fa & ea & _ & _ & ->).
  split; cbn; eauto.
Qed.

End Tick.

Lemma get_new_position_succeeds (a : Agent) :
  has_perception a → ∃ p, _get_new_position a = Ok p.
Proof.
  intros [[fp Hfp] [ep Hep]]. unfold _get_new_position, _get_destination.
  rewrite Hfp, Hep. cbn [mbind result_bind]. eauto.
Qed.

Lemma move_alter (s : list Agent) (i : nat) (a : Agent) :
  Forall has_perception s → s !! i = Some a →
  move i s = Ok (alter moved i s) ∧ Forall has_perception (alter moved i s).
Proof.
  intros Hall Ha. split.
  - destruct (get_new_position_succeeds a) as [p Hp].
    { now apply (Forall_lookup_1 _ _ _ _ Hall Ha). }
    rewrite (alter_as_insert _ s i a Ha).
    unfold move, moved. cbn [deref]. rewrite Ha. cbn [mbind result_bind].
    rewrite Hp. reflexivity.
  - apply Forall_alter; [exact Hall |].
    intros b _ Hb. unfold moved. destruct (_get_new_position b); exact Hb.
Qed.

(** The second pass, in any order, once every agent has its snapshots. *)
Lemma second_pass (s : list Agent) (order : list nat) :
  Forall has_perception s → order ≡ₚ seq 0 (length s) →
  for_each order move s = Ok (moved <$> s).
Proof.
  intros Hall Hperm.
  apply (for_each_all move moved (Forall has_perception));
    [apply move_alter | exact Hall | exact Hperm].
Qed.

Lemma step_in_order_closed_form (agents : list Agent) (order1 order2 : list nat) :
  assigned agents →
  order1 ≡ₚ seq 0 (length agents) →
  order2 ≡ₚ seq 0 (length agents) →
  step_in_order order1 order2 agents
  = Ok (moved <$> (perceived agents <$> agents)).
Proof.
  intros Hassigned H1 H2. unfold step_in_order.
  rewrite (first_pass agents Hassigned order1 H1). cbn [mbind result_bind].
  apply second_pass; [now apply perceived_has_perception |].
  now rewrite length_fmap.
Qed.

(** C2.  When every agent has its friend and its enemy, one tick that runs
    [update_state] over the agents in one order and then [move] over them
    in another ends in the state of [Environment.step], whatever the two
    orders; that state holds, for every agent, the position that the
    agent's own [_get_new_position] computes from its own position and the
    positions its friend and its enemy had before the tick. *)
Theorem step_is_simultaneous (agents : list Agent) (order1 order2 : list nat) :
  assigned agents →
  order1 ≡ₚ seq 0 (length agents) →
  order2 ≡ₚ seq 0 (length agents) →
  ∃ agents',
    step_agents agents = Ok agents' ∧
    step_in_order order1 order2 agents = Ok agents' ∧
    length agents' = length agents ∧
    ∀ i a, agents !! i = Some a →
      ∃ fa ea p,
        deref agents (friend a) = Ok fa ∧
        deref agents (enemy a) = Ok ea ∧
        _get_new_position (set_perception a (position fa) (position ea)) = Ok p ∧
        agents' !! i
        = Some (set_position (set_perception a (position fa) (position ea)) p).
Proof.
  intros Hassigned H1 H2.
  exists (moved <$> (perceived agents <$> agents)).
  split; [now apply step_in_order_closed_form |].
  split; [now apply step_in_order_closed_form |].
  split; [now rewrite !length_fmap |].
  intros i a Ha.
  destruct (perceived_assigned agents Hassigned i a Ha) as (fa & ea & Hfa & Hea & Hp).
  destruct (get_new_position_succeeds
              (set_perception a (position fa) (position ea))) as [p Hnew].
  { split; cbn; eauto. }
  exists fa, ea, p. split; [exact Hfa | split; [exact Hea | split; [exact Hnew |]]].
  rewrite !list_lookup_fmap, Ha. cbn. rewrite Hp. unfold moved. now rewrite Hnew.
Qed.

(** ** Sampling two agents *)

Section Sampling.

Context {A : Type}.
Implicit Types population : list A.

(** The two sampled elements sit at different places of the population. *)
Lemma random_sample2_places population (pick : nat * nat) :
  (2 ≤ length population)%nat →
  ∃ j k a b, random_sample2 population pick = Ok (a, b) ∧ j ≠ k ∧
             population !! j = Some a ∧ population !! k = Some b.
Proof.
  intros Hlen. unfold random_sample2.
  destruct (Nat.ltb_spec (length population) 2) as [Hlt | _]; [lia |].
  set (j := (pick.1 mod length population)%nat).
  set (k := (pick.2 mod (length population - 1))%nat).
  assert (Hj : (j < length population)%nat) by (apply Nat.mod_upper_bound; lia).
  assert (Hk : (k < length population - 1)%nat) by (apply Nat.mod_upper_bound; lia).
  destruct (lookup_lt_is_Some_2 population j Hj) as [a Ha]. rewrite Ha.
  destruct (decide (k < j)%nat) as [Hkj | Hkj].
  - destruct (lookup_lt_is_Some_2 population k ltac:(lia)) as [b Hb].
    rewrite lookup_app_l by (rewrite length_take; lia).
    rewrite lookup_take_lt by exact Hkj. rewrite Hb.
    exists j, k, a, b. split; [reflexivity | split; [lia | auto]].
  - destruct (lookup_lt_is_Some_2 population (S k) ltac:(lia)) as [b Hb].
    rewrite lookup_app_r by (rewrite length_take; lia).
    rewrite length_take_le by lia. rewrite lookup_drop.
    replace (S j + (k - j))%nat with (S k) by lia. rewrite Hb.
    exists j, (S k), a, b. split; [reflexivity | split; [lia | auto]].
Qed.

(** Any two different places can be drawn. *)
Lemma random_sample2_covers population (j k : nat) (a b : A) :
  j ≠ k → population !! j = Some a → population !! k = Some b →
  ∃ pick, random_sample2 population pick = Ok (a, b).
Proof.
  intros Hjk Ha Hb.
  assert (Hj : (j < length population)%nat) by (apply lookup_lt_is_Some_1; eauto).
  assert (Hk : (k < length population)%nat) by (apply lookup_lt_is_Some_1; eauto).
  exists (j, if decide (k < j)%nat then k else (k - 1)%nat).
  unfold random_sample2. cbn [fst snd].
  destruct (Nat.ltb_spec (length population) 2) as [Hlt | _]; [lia |].
  rewrite (Nat.mod_small j) by exact Hj. rewrite Ha.
  destruct (decide (k < j)%nat) as [Hkj | Hkj].
  - rewrite Nat.mod_small by lia.
    rewrite lookup_app_l by (rewrite length_take; lia).
    rewrite lookup_take_lt by exact Hkj. now rewrite Hb.
  - rewrite Nat.mod_small by lia.
    rewrite lookup_app_r by (rewrite length_take; lia).
    rewrite length_take_le by lia. rewrite lookup_drop.
    replace (S j + (k - 1 - j))%nat with k by lia. now rewrite Hb.
Qed.

Lemma random_sample2_small population (pick : nat * nat) :
  (length population < 2)%nat → random_sample2 population pick = Raise ValueError.
Proof.
  intros Hlen. unfold random_sample2.
  destruct (Nat.ltb_spec (length population) 2) as [_ | Hge]; [reflexivity | lia].
Qed.

End Sampling.

(** The other agents of agent [i], among [n]. *)
Lemma other_agents_spec (n i : Z) :
  (0 ≤ i < n)%Z →
  length (range2 0 i ++ range2 (i + 1) n) = Z.to_nat (n - 1) ∧
  NoDup (range2 0 i ++ range2 (i + 1) n) ∧
  ∀ z, z ∈ range2 0 i ++ range2 (i + 1) n ↔ (0 ≤ z < n)%Z ∧ z ≠ i.
Proof.
  intros Hi. unfold range2. split; [| split].
  - rewrite length_app, !length_seqZ. lia.
  - apply NoDup_app. split; [apply NoDup_seqZ |].
    split; [| apply NoDup_seqZ].
    intros z Hz Hz'. apply elem_of_seqZ in Hz, Hz'. lia.
  - intros z. rewrite elem_of_app, !elem_of_seqZ. lia.
Qed.

Lemma sample_other_agents (n i : Z) (pick : nat * nat) :
  (0 ≤ i < n)%Z → (3 ≤ n)%Z →
  ∃ friend_idx enemy_idx,
    random_sample2 (range2 0 i ++ range2 (i + 1) n) pick
    = Ok (friend_idx, enemy_idx) ∧
    (0 ≤ friend_idx < n)%Z ∧ (0 ≤ enemy_idx < n)%Z ∧
    friend_idx ≠ i ∧ enemy_idx ≠ i ∧ friend_idx ≠ enemy_idx.
Proof.
  intros Hi Hn.
  destruct (other_agents_spec n i Hi) as (Hlen & Hnd & Hin).
  destruct (random_sample2_places (range2 0 i ++ range2 (i + 1) n) pick)
    as (j & k & a & b & Hs & Hjk & Ha & Hb); [lia |].
  exists a, b. split; [exact Hs |].
  pose proof (proj1 (Hin a) (list_elem_of_lookup_2 _ _ _ Ha)) as [? ?].
  pose proof (proj1 (Hin b) (list_elem_of_lookup_2 _ _ _ Hb)) as [? ?].
  repeat split; try lia; try assumption.
  intros ->. apply Hjk. exact (NoDup_lookup _ _ _ _ Hnd Ha Hb).
Qed.

(** ** Assigning friends and enemies *)

Section Indexing.

Context {A : Type}.
Implicit Types l : list A.

Lemma py_slot_front l (i : Z) :
  (0 ≤ i < Z.of_nat (length l))%Z → py_slot l i = Ok (Z.to_nat i).
Proof. intros Hi. unfold py_slot. now rewrite decide_True. Qed.

Lemma py_slot_back l (i : Z) :
  (- Z.of_nat (length l) ≤ i < 0)%Z →
  py_slot l i = Ok (Z.to_nat (Z.of_nat (length l) + i)).
Proof.
  intros Hi. unfold py_slot.
  rewrite decide_False by lia. now rewrite decide_True.
Qed.

Lemma py_slot_outside l (i : Z) :
  (i < - Z.of_nat (length l) ∨ Z.of_nat (length l) ≤ i)%Z →
  py_slot l i = Raise IndexError.
Proof. intros Hi. unfold py_slot. now rewrite !decide_False by lia. Qed.

Lemma py_slot_length l l' (i : Z) :
  length l = length l' → py_slot l i = py_slot l' i.
Proof. intros Hlen. unfold py_slot. now rewrite Hlen. Qed.

End Indexing.

Lemma assign_ok (agents : list Agent) (i friend_idx enemy_idx : Z) (f e : nat) :
  (0 ≤ i < Z.of_nat (length agents))%Z →
  py_slot agents friend_idx = Ok f →
  py_slot agents enemy_idx = Ok e →
  assign i friend_idx enemy_idx agents
  = Ok (alter (befriend f e) (Z.to_nat i) agents).
Proof.
  intros Hi Hf He. unfold assign.
  destruct (lookup_lt_is_Some_2 agents (Z.to_nat i) ltac:(lia)) as [a Ha].
  rewrite Hf. cbn [mbind result_bind].
  rewrite (py_slot_front agents i Hi). cbn [mbind result_bind deref].
  rewrite Ha. cbn [mbind result_bind].
  rewrite !(py_slot_length (<[_ := _]> agents) agents) by apply length_insert.
  rewrite He. cbn [mbind result_bind].
  rewrite (py_slot_front agents i Hi). cbn [mbind result_bind].
  rewrite list_lookup_insert_eq by lia. cbn [mbind result_bind].
  rewrite list_insert_insert_eq. now rewrite (alter_as_insert _ _ _ _ Ha).
Qed.

Section AssignmentLoop.

Variable N : nat.
(** What an iteration guarantees of the two slots it stores in an agent. *)
Variable Q : nat → nat → nat → Prop.
Variable body : Z → list Agent → result (list Agent).

Lemma assignment_loop (xs : list Z) :
  (∀ i s, i ∈ xs → length s = N →
     (0 ≤ i < Z.of_nat N)%Z ∧
     ∃ f e, body i s = Ok (alter (befriend f e) (Z.to_nat i) s) ∧
            Q (Z.to_nat i) f e) →
  ∀ (done : nat → Prop) (s : list Agent),
    length s = N →
    (∀ j a, s !! j = Some a → done j → related Q j a) →
    ∃ s', for_each xs body s = Ok s' ∧ length s' = N ∧
          ∀ j a, s' !! j = Some a → done j ∨ Z.of_nat j ∈ xs → related Q j a.
Proof.
  induction xs as [| i xs IH]; intros Hbody done s Hlen Hdone.
  - exists s. split; [reflexivity | split; [exact Hlen |]].
    intros j a Ha [Hj | Hj]; [now apply Hdone | now apply elem_of_nil in Hj].
  - destruct (Hbody i s (list_elem_of_here _ _) Hlen) as (Hi & f & e & Hrun & HQ).
    cbn [for_each]. rewrite Hrun. cbn [mbind result_bind].
    destruct (IH ltac:(intros; apply Hbody; [now apply list_elem_of_further | done])
                 (λ j, done j ∨ j = Z.to_nat i)
                 (alter (befriend f e) (Z.to_nat i) s))
      as (s' & Hrun' & Hlen' & Hall).
    + now rewrite length_alter.
    + intros j a Ha [Hj | ->].
      * destruct (decide (Z.to_nat i = j)) as [<- | Hne].
        -- rewrite list_lookup_alter_eq in Ha.
           destruct (s !! Z.to_nat i); [| discriminate].
           injection Ha as <-. exists f, e. auto.
        -- rewrite list_lookup_alter_ne in Ha by exact Hne. now apply Hdone.
      * rewrite list_lookup_alter_eq in Ha.
        destruct (s !! Z.to_nat i); [| discriminate].
        injection Ha as <-. exists f, e. auto.
    + exists s'. split; [exact Hrun' | split; [exact Hlen' |]].
      intros j a Ha Hj. apply (Hall j a Ha).
      destruct Hj as [Hj | Hj]; [auto |].
      apply elem_of_cons in Hj as [Hj | Hj]; [left; right; lia | auto].
Qed.

End AssignmentLoop.

Lemma length_create_agents (env : Environment) (rng : Rng) :
  length (create_agents env rng) = Z.to_nat (n_agents env).
Proof. unfold create_agents. now rewrite length_map, length_seq. Qed.

Lemma elem_of_range (n i : Z) : i ∈ range n ↔ (0 ≤ i < n)%Z.
Proof. unfold range, range2. rewrite elem_of_seqZ. lia. Qed.

Lemma all_related (n : Z) (Q : nat → nat → nat → Prop) (s : list Agent) :
  length s = Z.to_nat n →
  (∀ j a, s !! j = Some a → False ∨ Z.of_nat j ∈ range n → related Q j a) →
  ∀ j a, s !! j = Some a → related Q j a.
Proof.
  intros Hlen Hall j a Ha. apply (Hall j a Ha). right.
  apply elem_of_range. apply lookup_lt_Some in Ha. lia.
Qed.

Lemma random_agent_assignment_spec (n : Z) (rng : Rng) (agents : list Agent) :
  (3 ≤ n)%Z → length agents = Z.to_nat n →
  ∃ agents', __random_agent_assignment n rng agents = Ok agents' ∧
    length agents' = Z.to_nat n ∧
    ∀ j a, agents' !! j = Some a →
      related (distinct_relationship (Z.to_nat n)) j a.
Proof.
  intros Hn Hlen. unfold __random_agent_assignment.
  match goal with
  | |- ∃ _, for_each _ ?body _ = _ ∧ _ =>
      destruct (assignment_loop (Z.to_nat n)
                  (distinct_relationship (Z.to_nat n)) body (range n))
        with (done := λ _ : nat, False) (s := agents)
        as (agents' & Hrun & Hlen' & Hall)
  end.
  - intros i s Hi Hs. apply elem_of_range in Hi. split; [lia |].
    destruct (sample_other_agents n i (picks rng (Z.to_nat i)) Hi Hn)
      as (fi & ei & Hsample & Hf & He & Hfi & Hei & Hfe).
    exists (Z.to_nat fi), (Z.to_nat ei). rewrite Hsample. cbn.
    split; [apply assign_ok; try apply py_slot_front; lia |].
    unfold distinct_relationship. lia.
  - exact Hlen.
  - intros j a _ [].
  - exists agents'. split; [exact Hrun |].
    split; [exact Hlen' | now apply (all_related n)].
Qed.

Lemma neighbours_agent_assignment_spec (n : Z) (agents : list Agent) :
  (2 ≤ n)%Z → length agents = Z.to_nat n →
  ∃ agents', __neighbours_agent_assignment n agents = Ok agents' ∧
    length agents' = Z.to_nat n ∧
    ∀ j a, agents' !! j = Some a →
      related (ring_relationship (Z.to_nat n)) j a.
Proof.
  intros Hn Hlen. unfold __neighbours_agent_assignment.
  match goal with
  | |- ∃ _, for_each _ ?body _ = _ ∧ _ =>
      destruct (assignment_loop (Z.to_nat n)
                  (ring_relationship (Z.to_nat n)) body (range n))
        with (done := λ _ : nat, False) (s := agents)
        as (agents' & Hrun & Hlen' & Hall)
  end.
  - intros i s Hi Hs. apply elem_of_range in Hi. split; [lia |].
    unfold ring_relationship.
    destruct (decide (i = 0)%Z) as [-> | Hi0];
      [| destruct (decide (i = n - 1)%Z) as [-> | Hi1]].
    + exists (Z.to_nat n - 1)%nat, 1%nat.
      split.
      * apply assign_ok; [lia | |].
        -- rewrite py_slot_back by lia. f_equal. lia.
        -- rewrite py_slot_front by lia. reflexivity.
      * rewrite decide_True by reflexivity. rewrite decide_False by lia. lia.
    + exists (Z.to_nat n - 2)%nat, 0%nat.
      split.
      * apply assign_ok; [lia | |].
        -- rewrite py_slot_back by lia. f_equal. lia.
        -- rewrite py_slot_front by lia. reflexivity.
      * rewrite decide_False by lia. rewrite decide_True by lia. lia.
    + exists (Z.to_nat i - 1)%nat, (Z.to_nat i + 1)%nat.
      split.
      * apply assign_ok; [lia | |].
        -- rewrite py_slot_front by lia. f_equal. lia.
        -- rewrite py_slot_front by lia. f_equal. lia.
      * rewrite !decide_False by lia. lia.
  - exact Hlen.
  - intros j a _ [].
  - exists agents'. split; [exact Hrun |].
    split; [exact Hlen' | now apply (all_related n)].
Qed.

Lemma ring_is_distinct (N j f e : nat) :
  (3 ≤ N)%nat → (j < N)%nat →
  ring_relationship N j f e → distinct_relationship N j f e.
Proof.
  intros HN Hj [-> ->]. unfold distinct_relationship.
  repeat case_decide; lia.
Qed.

(** C8.  [reset] with 'random' or 'neighbours' and at least three agents
    succeeds, whatever the random draws, and leaves every agent with a
    friend and an enemy that are agents of the environment, differ from
    the agent itself and differ from each other. *)
Theorem reset_relationships_distinct
    (env : Environment) (assignment_type : string) (rng : Rng) :
  assignment_type = "random" ∨ assignment_type = "neighbours" →
  (3 ≤ n_agents env)%Z →
  ∃ env',
    reset env assignment_type rng = Ok env' ∧
    Z.of_nat (length (agents env')) = n_agents env ∧
    ∀ i a, agents env' !! i = Some a →
      ∃ f e, friend a = Some f ∧ enemy a = Some e ∧
             f ≠ i ∧ e ≠ i ∧ f ≠ e ∧
             (f < length (agents env'))%nat ∧ (e < length (agents env'))%nat.
Proof.
  intros Hty Hn. unfold reset.
  pose proof (length_create_agents env rng) as Hlen.
  destruct Hty as [-> | ->].
  - destruct (random_agent_assignment_spec (n_agents env) rng _ Hn Hlen)
      as (agents' & Hrun & Hlen' & Hall).
    rewrite decide_True by reflexivity. rewrite Hrun. cbn [mbind result_bind].
    eexists. split; [reflexivity |]. cbn [agents set_agents].
    split; [lia |]. intros i a Ha.
    destruct (Hall i a Ha) as (f & e & Hf & He & HQ).
    exists f, e. unfold distinct_relationship in HQ. rewrite Hlen'. tauto.
  - destruct (neighbours_agent_assignment_spec (n_agents env) _ ltac:(lia) Hlen)
      as (agents' & Hrun & Hlen' & Hall).
    rewrite decide_False by discriminate. rewrite decide_True by reflexivity.
    rewrite Hrun. cbn [mbind result_bind].
    eexists. split; [reflexivity |]. cbn [agents set_agents].
    split; [lia |]. intros i a Ha.
    destruct (Hall i a Ha) as (f & e & Hf & He & HQ).
    apply ring_is_distinct in HQ; [| lia | apply lookup_lt_Some in Ha; lia].
    exists f, e. unfold distinct_relationship in HQ. rewrite Hlen'. tauto.
Qed.

(** ** Construction and small environments *)

Lemma ok_not_raises {A} (a : A) : ¬ raises (Ok a).
Proof. intros [e He]. discriminate He. Qed.

Lemma random_agent_assignment_small (n : Z) (rng : Rng) (agents : list Agent) :
  n = 1%Z ∨ n = 2%Z → __random_agent_assignment n rng agents = Raise ValueError.
Proof. intros [-> | ->]; reflexivity. Qed.

Lemma neighbours_agent_assignment_single (a : Agent) :
  __neighbours_agent_assignment 1 [a] = Raise IndexError.
Proof. reflexivity. Qed.

Lemma reset_empty (env : Environment) (assignment_type : string) (rng : Rng) :
  (n_agents env ≤ 0)%Z → reset env assignment_type rng = Ok (set_agents env []).
Proof.
  intros Hn. unfold reset, create_agents.
  unfold __random_agent_assignment, __neighbours_agent_assignment, range, range2, seqZ.
  replace (Z.to_nat (n_agents env)) with 0%nat by lia.
  replace (Z.to_nat (n_agents env - 0)) with 0%nat by lia.
  cbn. repeat case_decide; reflexivity.
Qed.

(** C9 as stated does not hold: a negative step size, a negative distance
    and a reset of two agents with the 'neighbours' assignment are all
    accepted without an error. *)
Lemma invalid_parameters_are_accepted :
  (-1 <=? 0)%float = true ∧ (-20 <=? 0)%float = true ∧ (2 < 3)%Z ∧
  ¬ raises (Environment_init 10 (-1) (100, 100)%float
                             ProtectiveAgent1Creator) ∧
  ¬ raises (HidingAgent1Creator_init (-20)) ∧
  ¬ raises (reset {| n_agents := 2; env_step_size := 10;
                     grid_size := (100, 100)%float;
                     agent_creator := ProtectiveAgent1Creator;
                     agents := []; sctr := None |}
                  "neighbours"
                  {| rand := λ _, (0, 0)%float; picks := λ _, (0%nat, 0%nat) |}).
Proof.
  split; [reflexivity | split; [reflexivity | split; [lia |]]].
  split; [apply ok_not_raises | split; [apply ok_not_raises |]].
  unfold reset. rewrite decide_False by discriminate.
  rewrite decide_True by reflexivity.
  edestruct (neighbours_agent_assignment_spec 2) as (agents' & -> & _);
    [lia | apply length_create_agents |].
  apply ok_not_raises.
Qed.

(** C9, amended.  Nothing is validated at construction: [Environment] and
    [HidingAgent1Creator] accept every step size and every distance.  With
    fewer than three agents [reset] raises only where the assignment cannot
    be carried out: 'random' with one or two agents (two cannot be sampled
    from fewer than two others) and 'neighbours' with one agent (there is
    no agent at index 1).  Without agents [reset] succeeds, and 'neighbours'
    with two agents succeeds and gives each agent the other one as both
    friend and enemy. *)
Theorem construction_is_unchecked
    (n : Z) (step_size distance : float) (size : float * float)
    (creator : AgentCreator) (env : Environment) (rng : Rng) :
  ¬ raises (Environment_init n step_size size creator) ∧
  ¬ raises (HidingAgent1Creator_init distance) ∧
  (n_agents env = 1%Z ∨ n_agents env = 2%Z →
   reset env "random" rng = Raise ValueError) ∧
  (n_agents env = 1%Z → reset env "neighbours" rng = Raise IndexError) ∧
  ((n_agents env ≤ 0)%Z →
   ∀ assignment_type, reset env assignment_type rng = Ok (set_agents env [])) ∧
  (n_agents env = 2%Z →
   ∃ env', reset env "neighbours" rng = Ok env' ∧
     ∀ i a, agents env' !! i = Some a →
       friend a = Some (1 - i)%nat ∧ enemy a = Some (1 - i)%nat).
Proof.
  split; [apply ok_not_raises | split; [apply ok_not_raises |]].
  split; [| split; [| split]].
  - intros Hn. unfold reset. rewrite decide_True by reflexivity.
    now rewrite random_agent_assignment_small.
  - intros Hn. unfold reset. rewrite decide_False by discriminate.
    rewrite decide_True by reflexivity.
    pose proof (length_create_agents env rng) as Hlen. rewrite Hn in Hlen.
    destruct (create_agents env rng) as [| a [| ? ?]]; try discriminate Hlen.
    rewrite Hn. now rewrite neighbours_agent_assignment_single.
  - intros Hn ty. now apply reset_empty.
  - intros Hn. unfold reset. rewrite decide_False by discriminate.
    rewrite decide_True by reflexivity.
    destruct (neighbours_agent_assignment_spec (n_agents env)
                (create_agents env rng) ltac:(lia) (length_create_agents env rng))
      as (agents' & Hrun & Hlen' & Hall).
    rewrite Hrun. cbn [mbind result_bind]. eexists. split; [reflexivity |].
    cbn [agents set_agents]. intros i a Ha.
    destruct (Hall i a Ha) as (f & e & Hf & He & -> & ->).
    apply lookup_lt_Some in Ha. rewrite Hlen', Hn in Ha. rewrite Hf, He, Hn.
    destruct i as [| [| i]]; [split; reflexivity | split; reflexivity | lia].
Qed.

(** ** The statements at concrete inputs *)

Lemma three_agents_assigned : assigned three_agents.
Proof.
  intros i a Ha.
  destruct i as [| [| [| i]]]; cbn in Ha; try discriminate Ha;
    injection Ha as <-; eexists _, _; cbn; repeat split; lia.
Qed.

(** C2 for three agents in a ring, perceiving in the order 2, 0, 1 and
    moving in the order 1, 2, 0. *)
Lemma step_is_simultaneous_witness :
  (assigned three_agents ∧
   [2; 0; 1]%nat ≡ₚ seq 0 (length three_agents) ∧
   [1; 2; 0]%nat ≡ₚ seq 0 (length three_agents)) ∧
  ∃ agents',
    step_agents three_agents = Ok agents' ∧
    step_in_order [2; 0; 1]%nat [1; 2; 0]%nat three_agents = Ok agents'.
Proof.
  assert (H1 : [2; 0; 1]%nat ≡ₚ seq 0 (length three_agents)).
  { cbn. etrans; [apply perm_swap | apply perm_skip, perm_swap]. }
  assert (H2 : [1; 2; 0]%nat ≡ₚ seq 0 (length three_agents)).
  { cbn. etrans; [apply perm_skip, perm_swap | apply perm_swap]. }
  split; [split; [exact three_agents_assigned | split; [exact H1 | exact H2]] |].
  destruct (step_is_simultaneous three_agents [2; 0; 1]%nat [1; 2; 0]%nat
              three_agents_assigned H1 H2) as (agents' & Hstep & Horder & _).
  exists agents'. split; [exact Hstep | exact Horder].
Defined.

(** C8 for five agents and the 'neighbours' assignment. *)
Lemma reset_relationships_distinct_witness :
  ("neighbours" = "random" ∨ "neighbours" = "neighbours") ∧
  (3 ≤ n_agents five_agents_world)%Z ∧
  ∃ env',
    reset five_agents_world "neighbours" fixed_draws = Ok env' ∧
    ∀ i a, agents env' !! i = Some a →
      ∃ f e, friend a = Some f ∧ enemy a = Some e ∧ f ≠ i ∧ e ≠ i ∧ f ≠ e.
Proof.
  assert (Hty : "neighbours" = "random" ∨ "neighbours" = "neighbours")
    by (right; reflexivity).
  assert (Hn : (3 ≤ n_agents five_agents_world)%Z) by (cbn; lia).
  split; [exact Hty | split; [exact Hn |]].
  destruct (reset_relationships_distinct five_agents_world "neighbours"
              fixed_draws Hty Hn) as (env' & Hreset & _ & Hall).
  exists env'. split; [exact Hreset |]. intros i a Ha.
  destruct (Hall i a Ha) as (f & e & Hf & He & H1 & H2 & H3 & _).
  exists f, e. auto.
Defined.

(** C9, amended, for an environment of one agent. *)
Lemma construction_is_unchecked_witness :
  (n_agents single_agent_world = 1%Z ∨ n_agents single_agent_world = 2%Z) ∧
  reset single_agent_world "random" fixed_draws = Raise ValueError ∧
  reset single_agent_world "neighbours" fixed_draws = Raise IndexError.
Proof.
  assert (Hn : n_agents single_agent_world = 1%Z) by reflexivity.
  destruct (construction_is_unchecked 1 10 20 (100, 100)%float
              (HidingAgent1Creator 20) single_agent_world fixed_draws)
    as (_ & _ & Hrandom & Hneighbours & _).
  split; [left; exact Hn |].
  split; [apply Hrandom; left; exact Hn | apply Hneighbours; exact Hn].
Defined.

(** * Further properties of the code *)

(** ** The travel primitive and the step size *)

Lemma py_min_nan (d : float) : py_min d nan = d.
Proof. unfold py_min. now rewrite ltb_nan_l. Qed.

Lemma py_min_infinity (d : float) : py_min d infinity = d.
Proof.
  unfold py_min. rewrite FloatAxioms.ltb_spec.
  change (Prim2SF infinity) with (S754_infinity false).
  float_cases d; reflexivity.
Qed.

(** X1.  A step size that is NaN does not stop an agent: Python's [min]
    returns the distance to the destination, as it does for an infinite
    step size, and the agent travels all the way. *)
Theorem nan_step_size_is_unlimited (current destination : Point) :
  _calculate_point_on_vector current nan destination
  = _calculate_point_on_vector current infinity destination ∧
  py_min (norm (vsub current destination)) nan
  = norm (vsub current destination).
Proof.
  unfold _calculate_point_on_vector; cbv zeta.
  now rewrite py_min_nan, py_min_infinity.
Qed.

(** ** The midpoint, and coincident snapshots *)

Lemma add_comm (x y : float) : (x + y)%float = (y + x)%float.
Proof.
  apply Prim2SF_inj. to_spec.
  destruct (Prim2SF x) as [[] | [] | | s m e], (Prim2SF y) as [[] | [] | | s' m' e'];
    try reflexivity.
  unfold SF64add, SFadd. cbv zeta.
  now rewrite (Z.min_comm e e'), Z.add_comm.
Qed.

(** X4.  [ProtectiveAgent1] treats friend and enemy alike: with the two
    snapshots exchanged its destination is the same, bit for bit. *)
Theorem midpoint_is_symmetric (F E : Point) :
  ProtectiveAgent1_get_destination F E = ProtectiveAgent1_get_destination E F.
Proof.
  unfold ProtectiveAgent1_get_destination; cbv zeta.
  now rewrite (add_comm F.1), (add_comm F.2).
Qed.

(** [0.0 + x * x] is [x * x], which is not greater than itself. *)
Lemma zero_add_square (x : float) : (0 + x * x)%float = (x * x)%float.
Proof.
  pose proof (mul_self_sign x) as H. apply Prim2SF_inj.
  rewrite FloatAxioms.add_spec, Prim2SF_zero.
  destruct (Prim2SF (x * x)) as [s | s | | s m e]; cbn in H; subst; reflexivity.
Qed.

Lemma ltb_irrefl (x : float) : (x <? x)%float = false.
Proof.
  rewrite FloatAxioms.ltb_spec. unfold SFltb, SFcompare.
  destruct (Prim2SF x) as [[] | [] | | [] m e]; try reflexivity;
    now rewrite Z.compare_refl, Pos.compare_cont_refl.
Qed.

Lemma coincident_tests (P F : Point) :
  finite_point F = true →
  tests_beyond_friend P F F = false ∧ tests_beyond_enemy P F F = false.
Proof.
  intros Hfin. unfold tests_beyond_friend, tests_beyond_enemy.
  rewrite (vsub_diag F Hfin).
  change (sq (norm (0, 0)%float)) with 0%float.
  unfold sq, gtb. rewrite zero_add_square. split; apply ltb_irrefl.
Qed.

(** X5.  With friend and enemy snapshots at one finite point,
    [ProtectiveAgent2] and [HidingAgent2] compute a destination without a
    NaN of their own, wherever the agent is: [HidingAgent2] that point,
    [ProtectiveAgent2] (through the vertical-line branch) the point's
    first coordinate with the agent's own second coordinate. *)
Theorem coincident_snapshots_stay_finite (P F : Point) :
  finite_point F = true →
  ProtectiveAgent2_get_destination P F F = (F.1, P.2) ∧
  HidingAgent2_get_destination P F F = F.
Proof.
  intros Hfin. destruct (coincident_tests P F Hfin) as [H1 H2].
  split.
  - rewrite (ProtectiveAgent2_between _ _ _ H1 H2).
    apply line_intercept_vertical.
    apply andb_prop in Hfin as [Hx _]. now rewrite sub_diag.
  - now apply HidingAgent2_not_beyond_friend.
Qed.

(** X5 for the agent at (5,3) and the snapshots at (1,2). *)
Lemma coincident_snapshots_stay_finite_witness :
  finite_point (1, 2)%float = true ∧
  ProtectiveAgent2_get_destination (5, 3)%float (1, 2)%float (1, 2)%float
  = (1, 3)%float ∧
  HidingAgent2_get_destination (5, 3)%float (1, 2)%float (1, 2)%float
  = (1, 2)%float.
Proof.
  split; [reflexivity |].
  exact (coincident_snapshots_stay_finite (5, 3)%float (1, 2)%float eq_refl).
Defined.

(** ** A vertical line through friend and enemy *)

Lemma exact_vertical_foot (P F E : Q * Q) :
  (E.1 == F.1)%Q →
  (cross (E.1, P.2) F E F == 0)%Q ∧ (inner (E.1, P.2) P E F == 0)%Q.
Proof.
  intros H. unfold cross, inner. cbn [fst snd]. rewrite H. split; ring.
Qed.

(** X21.  Friend and enemy at one finite abscissa: the vertical branch
    returns the enemy's first coordinate with the agent's second one, and
    for finite points that is the foot of the perpendicular from the agent
    onto the line through friend and enemy, without any rounding.
    [ProtectiveAgent2] takes the branch for an agent it classifies as
    between friend and enemy, [HidingAgent2] for an agent it classifies as
    beyond its friend. *)
Theorem vertical_branch_is_exact_foot (P F E : Point) :
  is_finite E.1 = true → F.1 = E.1 →
  line_intercept P F E = (E.1, P.2) ∧
  (tests_beyond_friend P F E = false → tests_beyond_enemy P F E = false →
   ProtectiveAgent2_get_destination P F E = (E.1, P.2)) ∧
  (tests_beyond_friend P F E = true →
   HidingAgent2_get_destination P F E = (E.1, P.2)) ∧
  (cross (exact_point (E.1, P.2)) (exact_point F) (exact_point E)
         (exact_point F) == 0)%Q ∧
  (inner (exact_point (E.1, P.2)) (exact_point P) (exact_point E)
         (exact_point F) == 0)%Q.
Proof.
  intros Hfin Hx.
  assert (Hcode : line_intercept P F E = (E.1, P.2)).
  { apply line_intercept_vertical. rewrite Hx. now rewrite sub_diag. }
  split; [exact Hcode |]. split; [| split].
  - intros H1 H2. now rewrite (ProtectiveAgent2_between _ _ _ H1 H2).
  - intros H. now rewrite (HidingAgent2_beyond_friend _ _ _ H).
  - apply (exact_vertical_foot (exact_point P) (exact_point F) (exact_point E)).
    unfold exact_point. cbn [fst]. now rewrite Hx.
Qed.

(** X21 for the friend at (2,0), the enemy at (2,10) and the agent at
    (5,3). *)
Lemma vertical_branch_is_exact_foot_witness :
  (is_finite 2 = true ∧ 2%float = 2%float) ∧
  ProtectiveAgent2_get_destination (5, 3)%float (2, 0)%float (2, 10)%float
  = (2, 3)%float.
Proof.
  split; [split; reflexivity |].
  destruct (vertical_branch_is_exact_foot (5, 3)%float (2, 0)%float
              (2, 10)%float eq_refl eq_refl) as (_ & H & _).
  exact (H eq_refl eq_refl).
Defined.

(** ** Not-a-number in the simulation *)

(** Towards a NaN destination, and from a NaN position, the travel
    primitive returns NaN, whatever the step size. *)
Lemma travel_to_nan (p : Point) (s : float) :
  _calculate_point_on_vector p s (nan, nan) = (nan, nan).
Proof.
  unfold _calculate_point_on_vector; cbv zeta. rewrite vsub_nan, norm_nan.
  change (nan =? 0)%float with false. cbv iota. unfold py_min.
  rewrite ltb_nan_r. change (vdiv (nan, nan) nan) with ((nan, nan) : Point).
  now rewrite vscale_nan, vsub_nan.
Qed.

Lemma travel_from_nan (s : float) (destination : Point) :
  _calculate_point_on_vector (nan, nan) s destination = (nan, nan).
Proof.
  unfold _calculate_point_on_vector; cbv zeta. apply vsub_from_nan.
Qed.

Lemma norm_nan_l (y : float) : norm (nan, y) = nan.
Proof. unfold norm. cbn [fst snd]. now rewrite mul_nan_l, add_nan_l. Qed.

Lemma sq_nan : sq nan = nan.
Proof. reflexivity. Qed.

(** NaN operands are absorbing. *)
Ltac nan_steps :=
  repeat first
    [ rewrite sub_nan_r | rewrite sub_nan_l | rewrite add_nan_r
    | rewrite add_nan_l | rewrite mul_nan_r | rewrite mul_nan_l
    | rewrite div_nan_r | rewrite div_nan_l | rewrite eqb_nan_l
    | progress cbv beta iota zeta ].

(** The intercept with a line through a NaN is NaN. *)
Lemma line_intercept_nan_friend (p e : Point) :
  line_intercept p (nan, nan) e = (nan, nan).
Proof. unfold line_intercept. cbn [fst snd]. nan_steps. reflexivity. Qed.

Lemma line_intercept_nan_enemy (p f : Point) :
  line_intercept p f (nan, nan) = (nan, nan).
Proof. unfold line_intercept. cbn [fst snd]. nan_steps. reflexivity. Qed.

Lemma tests_nan_friend (p e : Point) :
  tests_beyond_friend p (nan, nan) e = false ∧
  tests_beyond_enemy p (nan, nan) e = false.
Proof.
  unfold tests_beyond_friend, tests_beyond_enemy.
  rewrite !vsub_from_nan, norm_nan, sq_nan.
  rewrite add_nan_l. split; [apply gtb_nan_r | apply gtb_nan_l].
Qed.

Lemma tests_nan_enemy (p f : Point) :
  tests_beyond_friend p f (nan, nan) = false ∧
  tests_beyond_enemy p f (nan, nan) = false.
Proof.
  unfold tests_beyond_friend, tests_beyond_enemy.
  rewrite !vsub_from_nan, !vsub_nan, norm_nan, sq_nan.
  rewrite !add_nan_l. split; [apply gtb_nan_l | apply gtb_nan_r].
Qed.

Lemma destination_nan_friend (a : Agent) (e : Point) :
  friend_position a = Some (nan, nan) → enemy_position a = Some e →
  _get_destination a = Ok (nan, nan).
Proof.
  intros Hf He. unfold _get_destination. rewrite Hf, He. f_equal.
  destruct (tests_nan_friend (position a) e) as [H1 H2].
  destruct (class a).
  - unfold ProtectiveAgent1_get_destination. cbn [fst snd].
    now rewrite !add_nan_l, !div_nan_l.
  - rewrite (ProtectiveAgent2_between _ _ _ H1 H2).
    apply line_intercept_nan_friend.
  - apply HidingAgent1_nan_norm. now rewrite vsub_from_nan.
  - now apply HidingAgent2_not_beyond_friend.
Qed.

Lemma destination_nan_enemy (a : Agent) (f : Point) :
  friend_position a = Some f → enemy_position a = Some (nan, nan) →
  class a ≠ HidingAgent2 →
  _get_destination a = Ok (nan, nan).
Proof.
  intros Hf He Hclass. unfold _get_destination. rewrite Hf, He. f_equal.
  destruct (tests_nan_enemy (position a) f) as [H1 H2].
  destruct (class a); [| | | contradiction].
  - unfold ProtectiveAgent1_get_destination. cbn [fst snd].
    now rewrite !add_nan_r, !div_nan_l.
  - rewrite (ProtectiveAgent2_between _ _ _ H1 H2).
    apply line_intercept_nan_enemy.
  - apply HidingAgent1_nan_norm. now rewrite vsub_nan.
Qed.

(** X6.  An agent whose position is NaN keeps it: whatever its class, its
    step size and its snapshots, [_get_new_position] returns NaN again. *)
Theorem nan_position_is_kept (a : Agent) :
  position a = (nan, nan) → has_perception a →
  _get_new_position a = Ok (nan, nan).
Proof.
  intros Hpos [[f Hf] [e He]]. unfold _get_new_position, _get_destination.
  rewrite Hf, He. cbn [mbind result_bind]. rewrite Hpos, travel_from_nan.
  reflexivity.
Qed.

(** X7.  NaN spreads along the relationships: an agent whose snapshot of
    its friend is NaN moves to NaN, whatever its class, and so does an
    agent whose snapshot of its enemy is NaN, unless it is a
    [HidingAgent2]. *)
Theorem nan_snapshot_spreads (a : Agent) (other : Point) :
  (friend_position a = Some (nan, nan) ∧ enemy_position a = Some other) ∨
  (friend_position a = Some other ∧ enemy_position a = Some (nan, nan) ∧
   class a ≠ HidingAgent2) →
  _get_new_position a = Ok (nan, nan).
Proof.
  intros H. unfold _get_new_position.
  assert (Hdest : _get_destination a = Ok (nan, nan)).
  { destruct H as [[Hf He] | (Hf & He & Hclass)].
    - now apply (destination_nan_friend a other).
    - now apply (destination_nan_enemy a other). }
  rewrite Hdest. cbn [mbind result_bind]. now rewrite travel_to_nan.
Qed.

(** X6 for an agent at NaN with finite snapshots. *)
Lemma nan_position_is_kept_witness :
  (position lost_agent = (nan, nan) ∧ has_perception lost_agent) ∧
  _get_new_position lost_agent = Ok (nan, nan).
Proof.
  assert (Hp : has_perception lost_agent) by (split; cbn; eauto).
  split; [split; [reflexivity | exact Hp] |].
  exact (nan_position_is_kept lost_agent eq_refl Hp).
Defined.

(** X7 for a finite agent whose friend is at NaN. *)
Lemma nan_snapshot_spreads_witness :
  (friend_position follower_of_lost_agent = Some (nan, nan) ∧
   enemy_position follower_of_lost_agent = Some (10, 0)%float) ∧
  _get_new_position follower_of_lost_agent = Ok (nan, nan).
Proof.
  assert (H : friend_position follower_of_lost_agent = Some (nan, nan) ∧
              enemy_position follower_of_lost_agent = Some (10, 0)%float)
    by (split; reflexivity).
  split; [exact H |].
  exact (nan_snapshot_spreads follower_of_lost_agent (10, 0)%float (or_introl H)).
Defined.

(** ** What [reset] creates *)

Lemma fmap_insert_invisible {A B} (g : A → B) (s : list A) (i : nat) (a x : A) :
  s !! i = Some a → g x = g a → g <$> <[i := x]> s = g <$> s.
Proof.
  intros Ha Hg. rewrite list_fmap_insert, Hg.
  apply list_insert_id. now rewrite list_lookup_fmap, Ha.
Qed.

(** The two assignments change the two references of one agent only. *)
Lemma assign_keeps (i friend_idx enemy_idx : Z) (s s' : list Agent) :
  assign i friend_idx enemy_idx s = Ok s' → unrelated <$> s' = unrelated <$> s.
Proof.
  unfold assign, deref. intros H.
  destruct (py_slot s friend_idx) as [f |]; [| discriminate H].
  cbn [mbind result_bind] in H.
  destruct (py_slot s i) as [k |]; [| discriminate H].
  cbn [mbind result_bind] in H.
  destruct (s !! k) as [a |] eqn:Ha; [| discriminate H].
  cbn [mbind result_bind] in H.
  destruct (py_slot _ enemy_idx) as [e |]; [| discriminate H].
  cbn [mbind result_bind] in H.
  destruct (py_slot _ i) as [k' |]; [| discriminate H].
  cbn [mbind result_bind] in H.
  destruct (_ !! k') as [a' |] eqn:Ha'; [| discriminate H].
  cbn [mbind result_bind] in H. injection H as <-.
  rewrite (fmap_insert_invisible unrelated _ k' a' (set_enemy a' e) Ha' eq_refl).
  now rewrite (fmap_insert_invisible unrelated _ k a (set_friend a f) Ha eq_refl).
Qed.

(** What every successful iteration keeps, the whole loop keeps. *)
Lemma for_each_keeps {A S B} (g : S → B) (body : A → S → result S)
    (xs : list A) :
  (∀ x s s', body x s = Ok s' → g s' = g s) →
  ∀ s s', for_each xs body s = Ok s' → g s' = g s.
Proof.
  intros Hbody. induction xs as [| x xs IH]; intros s s' H; cbn [for_each] in H.
  - now injection H as <-.
  - destruct (body x s) as [s1 |] eqn:H1; [| discriminate H].
    cbn [mbind result_bind] in H.
    rewrite (IH _ _ H). now apply (Hbody x).
Qed.

Lemma reset_keeps (env env' : Environment) (assignment_type : string) (rng : Rng) :
  reset env assignment_type rng = Ok env' →
  unrelated <$> agents env' = unrelated <$> create_agents env rng.
Proof.
  unfold reset. intros H.
  match type of H with
  | (?m ≫= _) = _ => destruct m as [l |] eqn:Hl; [| discriminate H]
  end.
  cbn [mbind result_bind] in H. injection H as <-. cbn [agents set_agents].
  repeat case_decide.
  - revert Hl. apply (for_each_keeps (fmap unrelated)).
    intros i s s' Hs. cbv zeta in Hs.
    destruct (random_sample2 (range2 0 i ++ range2 (i + 1) (n_agents env))
                (picks rng (Z.to_nat i))) as [[f e] |]; [| discriminate Hs].
    now apply assign_keeps in Hs.
  - revert Hl. apply (for_each_keeps (fmap unrelated)).
    intros i s s' Hs.
    repeat case_decide; now apply assign_keeps in Hs.
  - now injection Hl as <-.
Qed.

Lemma lookup_create_agents (env : Environment) (rng : Rng) (i : nat) (a : Agent) :
  create_agents env rng !! i = Some a →
  a = create_agent (agent_creator env)
        ((rand rng i).1 * (grid_size env).1)%float
        ((rand rng i).2 * (grid_size env).2)%float
        (env_step_size env).
Proof.
  unfold create_agents. rewrite list_lookup_fmap.
  destruct (seq 0 (Z.to_nat (n_agents env)) !! i) as [k |] eqn:Hk;
    [| discriminate].
  apply lookup_seq in Hk as [-> _]. cbn. now intros [= <-].
Qed.

Lemma create_agent_fields (c : AgentCreator) (x y s : float) :
  create_agent c x y s
  = {| class := class_of c; position := (x, y); step_size := s;
       friend := None; enemy := None;
       friend_position := None; enemy_position := None |}.
Proof. destruct c; reflexivity. Qed.

Lemma unrelated_fields (a b : Agent) :
  unrelated a = unrelated b →
  class a = class b ∧ position a = position b ∧ step_size a = step_size b ∧
  friend_position a = friend_position b ∧ enemy_position a = enemy_position b.
Proof.
  intros H. unfold unrelated in H. injection H as Hc Hp Hs Hfp Hep. auto.
Qed.

(** After a successful [reset], agent [i] is the agent that was created
    for it, up to its two references. *)
Lemma reset_agent (env env' : Environment) (assignment_type : string)
    (rng : Rng) (i : nat) (a : Agent) :
  reset env assignment_type rng = Ok env' →
  agents env' !! i = Some a →
  unrelated a
  = unrelated (create_agent (agent_creator env)
                 ((rand rng i).1 * (grid_size env).1)%float
                 ((rand rng i).2 * (grid_size env).2)%float
                 (env_step_size env)).
Proof.
  intros Hreset Ha. apply reset_keeps in Hreset.
  assert (H : (unrelated <$> agents env') !! i = Some (unrelated a))
    by (now rewrite list_lookup_fmap, Ha).
  rewrite Hreset, list_lookup_fmap in H.
  destruct (create_agents env rng !! i) as [b |] eqn:Hb; [| discriminate H].
  apply lookup_create_agents in Hb. subst b.
  cbn [fmap option_fmap option_map] in H. apply (inj Some) in H.
  now symmetry.
Qed.

(** X13.  Whenever [reset] succeeds there are [n_agents] agents (none for
    a negative number).  Agent [i] is at the products of its two draws
    with the sides of the grid, as rounded; it has the step size of the
    environment and the class of its creator, and no snapshots.  The
    scatter plot of the environment is left as it was. *)
Theorem reset_creates_agents
    (env env' : Environment) (assignment_type : string) (rng : Rng) :
  reset env assignment_type rng = Ok env' →
  length (agents env') = Z.to_nat (n_agents env) ∧
  sctr env' = sctr env ∧
  ∀ i a, agents env' !! i = Some a →
    position a = (((rand rng i).1 * (grid_size env).1)%float,
                  ((rand rng i).2 * (grid_size env).2)%float) ∧
    step_size a = env_step_size env ∧
    class a = class_of (agent_creator env) ∧
    friend_position a = None ∧ enemy_position a = None.
Proof.
  intros Hreset. split; [| split].
  - rewrite <- (length_create_agents env rng).
    rewrite <- (length_fmap unrelated (agents env')).
    rewrite (reset_keeps _ _ _ _ Hreset). apply length_fmap.
  - unfold reset in Hreset.
    match type of Hreset with
    | (?m ≫= _) = _ => destruct m as [l |]; [| discriminate Hreset]
    end.
    cbn [mbind result_bind] in Hreset. now injection Hreset as <-.
  - intros i a Ha.
    pose proof (reset_agent _ _ _ _ i a Hreset Ha) as Hsame.
    rewrite create_agent_fields in Hsame.
    apply unrelated_fields in Hsame as (Hc & Hp & Hs & Hfp & Hep).
    cbn in Hc, Hp, Hs, Hfp, Hep. auto.
Qed.

(** X13 for five agents on a grid of 100 by 100. *)
Lemma reset_creates_agents_witness :
  ∃ env',
    reset five_agents_world "neighbours" fixed_draws = Ok env' ∧
    length (agents env') = 5%nat ∧
    ∀ i a, agents env' !! i = Some a → position a = (0, 0)%float.
Proof.
  destruct (reset five_agents_world "neighbours" fixed_draws) as [env' |] eqn:Hr.
  - exists env'. split; [reflexivity |].
    destruct (reset_creates_agents five_agents_world env' "neighbours"
                fixed_draws Hr) as (Hlen & _ & Hall).
    split; [exact Hlen |]. intros i a Ha.
    exact (proj1 (Hall i a Ha)).
  - exfalso. unfold reset in Hr.
    rewrite decide_False in Hr by discriminate.
    rewrite decide_True in Hr by reflexivity.
    destruct (neighbours_agent_assignment_spec 5
                (create_agents five_agents_world fixed_draws) ltac:(lia)
                (length_create_agents five_agents_world fixed_draws))
      as (l & Hl & _).
    change (n_agents five_agents_world) with 5%Z in Hr.
    rewrite Hl in Hr. discriminate Hr.
Defined.

(** ** The ring of neighbours *)

Lemma ring_previous (n i : nat) :
  (i < n)%nat →
  (if decide (i = 0) then n - 1 else i - 1)%nat = ((i + n - 1) mod n)%nat.
Proof.
  intros Hi. case_decide as H0.
  - subst i. rewrite Nat.mod_small by lia. lia.
  - replace (i + n - 1)%nat with ((i - 1) + 1 * n)%nat by lia.
    rewrite Nat.Div0.mod_add. rewrite Nat.mod_small by lia. reflexivity.
Qed.

Lemma ring_next (n i : nat) :
  (i < n)%nat →
  (if decide (i = n - 1) then 0 else i + 1)%nat = ((i + 1) mod n)%nat.
Proof.
  intros Hi. case_decide as H0.
  - replace (i + 1)%nat with n by lia. now rewrite Nat.Div0.mod_same.
  - rewrite Nat.mod_small by lia. reflexivity.
Qed.

(** X14.  [reset] with 'neighbours' and at least two agents: the friend of
    agent [i] is the previous agent of the list and its enemy the next
    one, the first and the last agent being neighbours of each other. *)
Theorem neighbours_form_a_ring (env : Environment) (rng : Rng) :
  (2 ≤ n_agents env)%Z →
  ∃ env',
    reset env "neighbours" rng = Ok env' ∧
    ∀ i a, agents env' !! i = Some a →
      friend a = Some ((i + Z.to_nat (n_agents env) - 1)
                       mod Z.to_nat (n_agents env))%nat ∧
      enemy a = Some ((i + 1) mod Z.to_nat (n_agents env))%nat.
Proof.
  intros Hn. unfold reset.
  rewrite decide_False by discriminate. rewrite decide_True by reflexivity.
  destruct (neighbours_agent_assignment_spec (n_agents env)
              (create_agents env rng) Hn (length_create_agents env rng))
    as (agents' & Hrun & Hlen & Hall).
  rewrite Hrun. cbn [mbind result_bind]. eexists. split; [reflexivity |].
  cbn [agents set_agents]. intros i a Ha.
  destruct (Hall i a Ha) as (f & e & Hf & He & -> & ->).
  apply lookup_lt_Some in Ha. rewrite Hlen in Ha.
  rewrite Hf, He. now rewrite ring_previous, ring_next.
Qed.

(** X14 for five agents. *)
Lemma neighbours_form_a_ring_witness :
  (2 ≤ n_agents five_agents_world)%Z ∧
  ∃ env',
    reset five_agents_world "neighbours" fixed_draws = Ok env' ∧
    ∀ i a, agents env' !! i = Some a →
      friend a = Some ((i + 5 - 1) mod 5)%nat ∧
      enemy a = Some ((i + 1) mod 5)%nat.
Proof.
  assert (Hn : (2 ≤ n_agents five_agents_world)%Z) by (cbn; lia).
  split; [exact Hn |].
  exact (neighbours_form_a_ring five_agents_world fixed_draws Hn).
Defined.

(** ** A tick without relationships *)

Lemma update_state_unassigned (agents : list Agent) (i : nat) (a : Agent) :
  agents !! i = Some a → friend a = None →
  update_state i agents = Raise AttributeError.
Proof.
  intros Ha Hf. unfold update_state, deref. rewrite Ha.
  cbn [mbind result_bind]. rewrite Hf. reflexivity.
Qed.

Lemma step_agents_unassigned (a : Agent) (rest : list Agent) :
  friend a = None → step_agents (a :: rest) = Raise AttributeError.
Proof.
  intros Hf. unfold step_agents, step_in_order.
  cbn [length seq for_each].
  now rewrite (update_state_unassigned (a :: rest) 0 a eq_refl Hf).
Qed.

(** X15.  [reset] with an assignment type other than 'random' and
    'neighbours' (the docstring's 'neighbour', for one) raises nothing and
    assigns nothing: the agents are created without friend and enemy, and
    the next [step] of a non-empty environment raises an AttributeError. *)
Theorem unknown_assignment_leaves_agents_alone
    (env : Environment) (assignment_type : string) (rng : Rng) :
  assignment_type ≠ "random" → assignment_type ≠ "neighbours" →
  (1 ≤ n_agents env)%Z →
  ∃ env',
    reset env assignment_type rng = Ok env' ∧
    (∀ i a, agents env' !! i = Some a → friend a = None ∧ enemy a = None) ∧
    step env' = Raise AttributeError.
Proof.
  intros Hr Hn Hone. unfold reset.
  rewrite !decide_False by assumption. cbn [mbind result_bind].
  eexists. split; [reflexivity |]. cbn [agents set_agents].
  assert (Hfresh : ∀ i a, create_agents env rng !! i = Some a →
                          friend a = None ∧ enemy a = None).
  { intros i a Ha. apply lookup_create_agents in Ha. subst a.
    rewrite create_agent_fields. split; reflexivity. }
  split; [exact Hfresh |].
  unfold step. cbn [agents set_agents].
  pose proof (length_create_agents env rng) as Hlen.
  destruct (create_agents env rng) as [| a rest]; [cbn in Hlen; lia |].
  rewrite step_agents_unassigned; [reflexivity |].
  exact (proj1 (Hfresh 0%nat a eq_refl)).
Qed.

(** X15 for the assignment type 'neighbour' of the docstring of [reset]. *)
Lemma unknown_assignment_leaves_agents_alone_witness :
  ("neighbour" ≠ "random" ∧ "neighbour" ≠ "neighbours" ∧
   (1 ≤ n_agents five_agents_world)%Z) ∧
  ∃ env',
    reset five_agents_world "neighbour" fixed_draws = Ok env' ∧
    step env' = Raise AttributeError.
Proof.
  assert (H1 : "neighbour" ≠ "random") by discriminate.
  assert (H2 : "neighbour" ≠ "neighbours") by discriminate.
  assert (Hn : (1 ≤ n_agents five_agents_world)%Z) by (cbn; lia).
  split; [split; [exact H1 | split; [exact H2 | exact Hn]] |].
  destruct (unknown_assignment_leaves_agents_alone five_agents_world
              "neighbour" fixed_draws H1 H2 Hn) as (env' & Hreset & _ & Hstep).
  exists env'. auto.
Defined.

(** ** Ticks and frames *)

Lemma step_agents_closed_form (agents : list Agent) :
  assigned agents →
  step_agents agents = Ok (moved <$> (perceived agents <$> agents)).
Proof.
  intros H. now apply step_in_order_closed_form.
Qed.

(** A tick changes positions and snapshots only. *)
Lemma moved_fields (a : Agent) :
  class (moved a) = class a ∧ step_size (moved a) = step_size a ∧
  friend (moved a) = friend a ∧ enemy (moved a) = enemy a.
Proof. unfold moved. destruct (_get_new_position a); auto. Qed.

Lemma perceived_fields (agents : list Agent) (a : Agent) :
  class (perceived agents a) = class a ∧
  step_size (perceived agents a) = step_size a ∧
  friend (perceived agents a) = friend a ∧
  enemy (perceived agents a) = enemy a.
Proof.
  unfold perceived.
  destruct (deref agents (friend a)), (deref agents (enemy a)); auto.
Qed.

Lemma step_agents_keeps (agents agents' : list Agent) :
  assigned agents → step_agents agents = Ok agents' →
  length agents' = length agents ∧
  assigned agents' ∧
  ∀ i a a', agents !! i = Some a → agents' !! i = Some a' →
    class a' = class a ∧ step_size a' = step_size a ∧
    friend a' = friend a ∧ enemy a' = enemy a.
Proof.
  intros Hassigned Hstep.
  rewrite (step_agents_closed_form agents Hassigned) in Hstep.
  injection Hstep as <-.
  assert (Hfields : ∀ i a a', agents !! i = Some a →
            (moved <$> (perceived agents <$> agents)) !! i = Some a' →
            class a' = class a ∧ step_size a' = step_size a ∧
            friend a' = friend a ∧ enemy a' = enemy a).
  { intros i a a' Ha Ha'. rewrite !list_lookup_fmap, Ha in Ha'.
    cbn in Ha'. injection Ha' as <-.
    destruct (moved_fields (perceived agents a)) as (-> & -> & -> & ->).
    apply perceived_fields. }
  split; [now rewrite !length_fmap |]. split; [| exact Hfields].
  intros i a' Ha'. rewrite !length_fmap.
  destruct (agents !! i) as [a |] eqn:Ha.
  - destruct (Hfields i a a' Ha Ha') as (_ & _ & -> & ->).
    exact (Hassigned i a Ha).
  - rewrite !list_lookup_fmap, Ha in Ha'. discriminate Ha'.
Qed.

Lemma render_keeps (env : Environment) :
  assigned (agents env) → agents env ≠ [] → is_Some (sctr env) →
  ∃ env',
    render env = Ok (env', position <$> agents env') ∧
    step env = Ok (set_agents env (agents env')) ∧
    sctr env' = Some (position <$> agents env') ∧
    length (agents env') = length (agents env) ∧
    assigned (agents env') ∧
    ∀ i a a', agents env !! i = Some a → agents env' !! i = Some a' →
      class a' = class a ∧ step_size a' = step_size a ∧
      friend a' = friend a ∧ enemy a' = enemy a.
Proof.
  intros Hassigned Hne [s Hs]. unfold render, step.
  pose proof (step_agents_closed_form _ Hassigned) as Hstep.
  destruct (step_agents_keeps _ _ Hassigned Hstep) as (Hlen & Hass' & Hfields).
  rewrite Hstep. cbn [mbind result_bind].
  set (l := moved <$> (perceived (agents env) <$> agents env)) in *.
  assert (Hl : l ≠ []).
  { intros Hnil. rewrite Hnil in Hlen. destruct (agents env); [contradiction |].
    discriminate Hlen. }
  exists (set_sctr (set_agents env l) (position <$> l)).
  unfold format_agent_positions. cbn [agents set_agents set_sctr sctr].
  rewrite Hs. destruct l as [| a l']; [contradiction |].
  cbn [mbind result_bind]. auto 10.
Qed.

(** X16.  One frame of an environment with its scatter plot, whose agents
    all have a friend and an enemy: [render] succeeds, hands over one
    position per agent, in the order of the agents, as the offsets of the
    scatter plot, and changes neither the number of agents nor any agent's
    class, step size, friend or enemy. *)
Theorem render_changes_positions_only (env : Environment) :
  assigned (agents env) → agents env ≠ [] → is_Some (sctr env) →
  ∃ env' positions,
    render env = Ok (env', positions) ∧
    positions = position <$> agents env' ∧
    sctr env' = Some positions ∧
    length positions = length (agents env) ∧
    ∀ i a a', agents env !! i = Some a → agents env' !! i = Some a' →
      class a' = class a ∧ step_size a' = step_size a ∧
      friend a' = friend a ∧ enemy a' = enemy a.
Proof.
  intros Hassigned Hne Hsctr.
  destruct (render_keeps env Hassigned Hne Hsctr)
    as (env' & Hrender & _ & Hs & Hlen & _ & Hfields).
  exists env', (position <$> agents env').
  split; [exact Hrender | split; [reflexivity |]].
  split; [exact Hs |].
  split; [now rewrite length_fmap | exact Hfields].
Qed.

Lemma frames_succeed (k : nat) :
  ∀ env, assigned (agents env) → agents env ≠ [] → is_Some (sctr env) →
    ∃ env_k, frames k env = Ok env_k ∧
             length (agents env_k) = length (agents env) ∧
             assigned (agents env_k).
Proof.
  induction k as [| k IH]; intros env Hassigned Hne Hsctr.
  - exists env. auto.
  - destruct (render_keeps env Hassigned Hne Hsctr)
      as (env' & Hrender & _ & Hs & Hlen & Hass' & _).
    destruct (IH env' Hass') as (env_k & Hframes & Hlen_k & Hass_k).
    { intros Hnil. apply Hne. destruct (agents env); [reflexivity |].
      rewrite Hnil in Hlen. discriminate Hlen. }
    { rewrite Hs. eauto. }
    exists env_k. cbn [frames]. rewrite Hrender. cbn [mbind result_bind fst].
    split; [exact Hframes | split; [congruence | exact Hass_k]].
Qed.

Lemma reset_assigns (env : Environment) (assignment_type : string) (rng : Rng) :
  assignment_type = "random" ∨ assignment_type = "neighbours" →
  (3 ≤ n_agents env)%Z →
  ∃ env', reset env assignment_type rng = Ok env' ∧
          length (agents env') = Z.to_nat (n_agents env) ∧
          assigned (agents env').
Proof.
  intros Hty Hn. unfold reset.
  pose proof (length_create_agents env rng) as Hlen.
  destruct Hty as [-> | ->].
  - destruct (random_agent_assignment_spec (n_agents env) rng _ Hn Hlen)
      as (agents' & Hrun & Hlen' & Hall).
    rewrite decide_True by reflexivity. rewrite Hrun. cbn [mbind result_bind].
    eexists. split; [reflexivity |]. cbn [agents set_agents].
    split; [exact Hlen' |]. intros i a Ha.
    destruct (Hall i a Ha) as (f & e & Hf & He & HQ).
    exists f, e. unfold distinct_relationship in HQ. rewrite Hlen'. tauto.
  - destruct (neighbours_agent_assignment_spec (n_agents env) _ ltac:(lia) Hlen)
      as (agents' & Hrun & Hlen' & Hall).
    rewrite decide_False by discriminate. rewrite decide_True by reflexivity.
    rewrite Hrun. cbn [mbind result_bind].
    eexists. split; [reflexivity |]. cbn [agents set_agents].
    split; [exact Hlen' |]. intros i a Ha.
    destruct (Hall i a Ha) as (f & e & Hf & He & HQ).
    apply ring_is_distinct in HQ; [| lia | apply lookup_lt_Some in Ha; lia].
    exists f, e. unfold distinct_relationship in HQ. rewrite Hlen'. tauto.
Qed.

Lemma reset_keeps_sctr (env env' : Environment) (assignment_type : string)
    (rng : Rng) :
  reset env assignment_type rng = Ok env' → sctr env' = sctr env.
Proof.
  intros H. unfold reset in H.
  match type of H with
  | (?m ≫= _) = _ => destruct m as [l |]; [| discriminate H]
  end.
  cbn [mbind result_bind] in H. now injection H as <-.
Qed.

Lemma init_render_ok (env : Environment) :
  agents env ≠ [] →
  init_render env
  = Ok (set_sctr env (position <$> agents env), position <$> agents env).
Proof.
  intros Hne. unfold init_render, format_agent_positions.
  destruct (agents env); [contradiction | reflexivity].
Qed.

(** X17.  After a [reset] with 'random' or 'neighbours' and at least three
    agents the animation never fails: [init_render] and every number of
    frames after it succeed, and the environment still has its [n_agents]
    agents, each with a friend and an enemy. *)
Theorem animation_runs_after_reset
    (env : Environment) (assignment_type : string) (rng : Rng) (k : nat) :
  assignment_type = "random" ∨ assignment_type = "neighbours" →
  (3 ≤ n_agents env)%Z →
  ∃ env' env_k,
    reset env assignment_type rng = Ok env' ∧
    run k env' = Ok env_k ∧
    Z.of_nat (length (agents env_k)) = n_agents env ∧
    assigned (agents env_k).
Proof.
  intros Hty Hn.
  destruct (reset_assigns env assignment_type rng Hty Hn)
    as (env' & Hreset & Hlen & Hassigned).
  assert (Hne : agents env' ≠ []).
  { intros Hnil. rewrite Hnil in Hlen. cbn in Hlen. lia. }
  destruct (frames_succeed k (set_sctr env' (position <$> agents env')))
    as (env_k & Hframes & Hlen_k & Hass_k);
    [exact Hassigned | exact Hne | cbn; eauto |].
  exists env', env_k. split; [exact Hreset |].
  split; [| split; [cbn [agents set_sctr] in Hlen_k; lia | exact Hass_k]].
  unfold run. rewrite (init_render_ok env' Hne). exact Hframes.
Qed.

(** X20.  An environment that was constructed and reset has no scatter
    plot yet: [render] steps the agents and then fails on [self.sctr], an
    AttributeError, until [init_render] has been called. *)
Theorem render_needs_init_render
    (n : Z) (step_size : float) (size : float * float) (creator : AgentCreator)
    (assignment_type : string) (rng : Rng) :
  assignment_type = "random" ∨ assignment_type = "neighbours" →
  (3 ≤ n)%Z →
  ∃ env env' env'',
    Environment_init n step_size size creator = Ok env ∧
    reset env assignment_type rng = Ok env' ∧
    step env' = Ok env'' ∧
    render env' = Raise AttributeError ∧
    ∃ r, init_render env' = Ok r ∧ ¬ raises (render r.1).
Proof.
  intros Hty Hn. eexists. 
  destruct (reset_assigns
              {| n_agents := n; env_step_size := step_size; grid_size := size;
                 agent_creator := creator; agents := []; sctr := None |}
              assignment_type rng Hty Hn)
    as (env' & Hreset & Hlen & Hassigned).
  assert (Hne : agents env' ≠ []).
  { intros Hnil. rewrite Hnil in Hlen. cbn in Hlen. lia. }
  pose proof (reset_keeps_sctr _ _ _ _ Hreset) as Hsctr. cbn in Hsctr.
  pose proof (step_agents_closed_form _ Hassigned) as Hstep.
  destruct (step_agents_keeps _ _ Hassigned Hstep) as (Hlen' & _ & _).
  exists env'. eexists.
  split; [reflexivity |]. split; [exact Hreset |].
  split; [unfold step; rewrite Hstep; reflexivity |].
  split.
  - unfold render, step. rewrite Hstep. cbn [mbind result_bind].
    unfold format_agent_positions. cbn [agents set_agents sctr].
    rewrite Hsctr.
    destruct (moved <$> (perceived (agents env') <$> agents env')) as [| a l] eqn:Hl;
      [| reflexivity].
    destruct (agents env'); [contradiction | discriminate Hlen'].
  - eexists. split; [apply (init_render_ok env' Hne) |]. cbn [fst].
    destruct (render_keeps (set_sctr env' (position <$> agents env')))
      as (r & Hr & _); [exact Hassigned | exact Hne | cbn; eauto |].
    rewrite Hr. apply ok_not_raises.
Qed.

(** X18.  An environment without agents can be reset and stepped, but not
    rendered: [format_agent_positions] stacks an empty list, a ValueError,
    in [init_render] and in [render]. *)
Theorem empty_environment_cannot_be_rendered
    (env : Environment) (assignment_type : string) (rng : Rng) :
  (n_agents env ≤ 0)%Z →
  ∃ env',
    reset env assignment_type rng = Ok env' ∧
    agents env' = [] ∧
    step env' = Ok env' ∧
    format_agent_positions env' = Raise ValueError ∧
    render env' = Raise ValueError ∧
    init_render env' = Raise ValueError.
Proof.
  intros Hn. exists (set_agents env []).
  split; [now apply reset_empty |]. repeat split.
Qed.

(** X18 for an environment constructed with zero agents. *)
Lemma empty_environment_cannot_be_rendered_witness :
  (n_agents empty_world ≤ 0)%Z ∧
  ∃ env',
    reset empty_world "random" fixed_draws = Ok env' ∧
    render env' = Raise ValueError.
Proof.
  assert (Hn : (n_agents empty_world ≤ 0)%Z) by (cbn; lia).
  split; [exact Hn |].
  destruct (empty_environment_cannot_be_rendered empty_world "random"
              fixed_draws Hn) as (env' & Hreset & _ & _ & _ & Hrender & _).
  exists env'. auto.
Defined.

(** X16 for the three agents in a ring. *)
Lemma render_changes_positions_only_witness :
  (assigned (agents three_agents_world) ∧ agents three_agents_world ≠ [] ∧
   is_Some (sctr three_agents_world)) ∧
  ∃ env' positions,
    render three_agents_world = Ok (env', positions) ∧
    length positions = 3%nat.
Proof.
  assert (Hne : agents three_agents_world ≠ []) by discriminate.
  assert (Hs : is_Some (sctr three_agents_world)) by (cbn; eauto).
  split; [split; [exact three_agents_assigned | split; [exact Hne | exact Hs]] |].
  destruct (render_changes_positions_only three_agents_world
              three_agents_assigned Hne Hs)
    as (env' & positions & Hrender & _ & _ & Hlen & _).
  exists env', positions. auto.
Defined.

(** X17 for five agents, the 'random' assignment and a hundred frames. *)
Lemma animation_runs_after_reset_witness :
  (("random" = "random" ∨ "random" = "neighbours") ∧
   (3 ≤ n_agents five_agents_world)%Z) ∧
  ∃ env' env_k,
    reset five_agents_world "random" fixed_draws = Ok env' ∧
    run 100 env' = Ok env_k.
Proof.
  assert (Hty : "random" = "random" ∨ "random" = "neighbours")
    by (left; reflexivity).
  assert (Hn : (3 ≤ n_agents five_agents_world)%Z) by (cbn; lia).
  split; [split; [exact Hty | exact Hn] |].
  destruct (animation_runs_after_reset five_agents_world "random" fixed_draws
              100 Hty Hn) as (env' & env_k & Hreset & Hframes & _).
  exists env', env_k. auto.
Defined.

(** X20 for the environment of [main.py] with five agents. *)
Lemma render_needs_init_render_witness :
  (("random" = "random" ∨ "random" = "neighbours") ∧ (3 ≤ 5)%Z) ∧
  ∃ env env',
    Environment_init 5 10 (100, 100)%float (HidingAgent1Creator 20) = Ok env ∧
    reset env "random" fixed_draws = Ok env' ∧
    render env' = Raise AttributeError.
Proof.
  assert (Hty : "random" = "random" ∨ "random" = "neighbours")
    by (left; reflexivity).
  assert (Hn : (3 ≤ 5)%Z) by lia.
  split; [split; [exact Hty | exact Hn] |].
  destruct (render_needs_init_render 5 10 (100, 100)%float
              (HidingAgent1Creator 20) "random" fixed_draws Hty Hn)
    as (env & env' & _ & Hinit & Hreset & _ & Hrender & _).
  exists env, env'. auto.
Defined.

(** ** Two agents that hide behind each other *)

(** X19.  Two [HidingAgent1] agents after a [reset] with 'neighbours' are
    each other's friend and enemy at once, so that for each of them friend
    and enemy coincide: the first [step] succeeds and puts both agents at
    NaN, whatever the grid and the draws. *)
Theorem two_hiding_neighbours_are_lost
    (env : Environment) (rng : Rng) (distance : float) :
  n_agents env = 2%Z →
  agent_creator env = HidingAgent1Creator distance →
  ∃ env' env'',
    reset env "neighbours" rng = Ok env' ∧
    step env' = Ok env'' ∧
    length (agents env'') = 2%nat ∧
    ∀ i a, agents env'' !! i = Some a → position a = (nan, nan).
Proof.
  intros Hn Hcreator.
  destruct (reset env "neighbours" rng) as [env' |] eqn:Hreset.
  2: { exfalso. unfold reset in Hreset.
       rewrite decide_False in Hreset by discriminate.
       rewrite decide_True in Hreset by reflexivity.
       destruct (neighbours_agent_assignment_spec (n_agents env)
                   (create_agents env rng) ltac:(lia)
                   (length_create_agents env rng)) as (l & Hl & _).
       rewrite Hl in Hreset. discriminate Hreset. }
  (* the agents after the reset *)
  assert (Hring : length (agents env') = 2%nat ∧
                  ∀ i a, agents env' !! i = Some a →
                    friend a = Some (1 - i)%nat ∧ enemy a = Some (1 - i)%nat).
  { pose proof Hreset as Hr. unfold reset in Hr.
    rewrite decide_False in Hr by discriminate.
    rewrite decide_True in Hr by reflexivity.
    destruct (neighbours_agent_assignment_spec (n_agents env)
                (create_agents env rng) ltac:(lia)
                (length_create_agents env rng)) as (l & Hl & Hlen & Hall).
    rewrite Hl in Hr. cbn [mbind result_bind] in Hr. injection Hr as <-.
    cbn [agents set_agents]. rewrite Hn in Hlen. split; [exact Hlen |].
    intros i a Ha. destruct (Hall i a Ha) as (f & e & Hf & He & -> & ->).
    apply lookup_lt_Some in Ha. rewrite Hlen in Ha. rewrite Hf, He, Hn.
    destruct i as [| [| i]]; [split; reflexivity | split; reflexivity | lia]. }
  destruct Hring as [Hlen Hring].
  assert (Hclass : ∀ i a, agents env' !! i = Some a →
            class a = HidingAgent1 distance).
  { intros i a Ha.
    pose proof (reset_agent _ _ _ _ i a Hreset Ha) as Hsame.
    rewrite create_agent_fields, Hcreator in Hsame.
    now apply unrelated_fields in Hsame as (Hc & _). }
  assert (Hassigned : assigned (agents env')).
  { intros i a Ha. destruct (Hring i a Ha) as [Hf He].
    exists (1 - i)%nat, (1 - i)%nat. rewrite Hlen.
    split; [exact Hf | split; [exact He | lia]]. }
  exists env', (set_agents env' (moved <$> (perceived (agents env') <$> agents env'))).
  split; [reflexivity |]. split.
  { unfold step. now rewrite (step_agents_closed_form _ Hassigned). }
  cbn [agents set_agents]. split; [now rewrite !length_fmap |].
  intros i a' Ha'. rewrite !list_lookup_fmap in Ha'.
  destruct (agents env' !! i) as [a |] eqn:Ha; [| discriminate Ha'].
  cbn in Ha'. injection Ha' as <-.
  destruct (Hring i a Ha) as [Hf He].
  destruct (lookup_lt_is_Some_2 (agents env') (1 - i)%nat ltac:(lia)) as [b Hb].
  assert (Hperceived : perceived (agents env') a
                       = set_perception a (position b) (position b)).
  { unfold perceived. rewrite Hf, He. cbn [deref]. now rewrite Hb. }
  rewrite Hperceived. unfold moved, _get_new_position, _get_destination.
  cbn [friend_position enemy_position set_perception class position step_size].
  rewrite (Hclass i a Ha). cbn [mbind result_bind].
  rewrite HidingAgent1_coincident, travel_to_nan. reflexivity.
Qed.

(** X19 for two agents that hide at the distance 20. *)
Lemma two_hiding_neighbours_are_lost_witness :
  (n_agents two_hiding_agents_world = 2%Z) ∧
  ∃ env' env'',
    reset two_hiding_agents_world "neighbours" fixed_draws = Ok env' ∧
    step env' = Ok env'' ∧
    ∀ i a, agents env'' !! i = Some a → position a = (nan, nan).
Proof.
  split; [reflexivity |].
  destruct (two_hiding_neighbours_are_lost two_hiding_agents_world fixed_draws
              20 eq_refl eq_refl)
    as (env' & env'' & Hreset & Hstep & _ & Hall).
  exists env', env''. auto.
Defined.
